(** * Calls-Aggregator: filter language, call templates and the polling loop

    A shallow embedding of [src/main.py] and the properties of its filter
    parser ([parse_filter], [parse_single_condition]), filter evaluator
    ([evaluate_filter], [check_condition]), template formatter
    ([format_call_message]) and polling loop ([poll_channels]).

    Conventions of the embedding.
    - A Python [str] is a list of Unicode code points ([list N]); the
      literals of the source are written as Rocq strings and decoded from
      UTF-8 by [py].
    - The regular expressions of the source are terms of [regex], run by a
      backtracking matcher [rx] that tries the ways to match in the order
      of Python's [re]: a greedy quantifier the longest run first, a lazy
      one the shortest, an alternation its left branch.
    - A Python [float] is an exact binary64 value ([pyfloat]); [py_float]
      rounds a decimal literal to the nearest one, ties to even.
    - A Python exception is the [Raise] outcome of the [exc] type.
    - The collaborators of the polling loop (content source, sink, channel
      file) are an explicit world: a fetch function, a sink oracle, the
      file's content, and the trace of the calls made. *)

From Stdlib Require Import String Ascii.
From Stdlib Require Import List ZArith NArith Bool Lia.
From Stdlib Require Import Permutation Sorted.
From Stdlib Require Import DecimalString.
Import ListNotations.

Set Implicit Arguments.

(* ================================================================== *)
(** * Python strings *)
(* ================================================================== *)

Module Str.

Definition str := list N.

(** UTF-8 decoding of a well-formed byte sequence: [acc] holds the bits of
    the code point read so far, [pending] the continuation bytes missing. *)
Fixpoint utf8_go (bs : list N) (acc : N) (pending : nat) : str :=
  match bs with
  | [] => []
  | b :: bs' =>
      match pending with
      | O =>
          if (b <? 128)%N then b :: utf8_go bs' 0%N 0
          else if (b <? 224)%N then utf8_go bs' (b mod 32)%N 1
          else if (b <? 240)%N then utf8_go bs' (b mod 16)%N 2
          else utf8_go bs' (b mod 8)%N 3
      | S O => (acc * 64 + b mod 64)%N :: utf8_go bs' 0%N 0
      | S p => utf8_go bs' (acc * 64 + b mod 64)%N p
      end
  end.

Definition py (s : string) : str :=
  utf8_go (map N_of_ascii (list_ascii_of_string s)) 0%N 0.

Definition chr (s : string) : N := hd 0%N (py s).

Fixpoint eqb (a b : str) : bool :=
  match a, b with
  | [], [] => true
  | x :: a', y :: b' => (x =? y)%N && eqb a' b'
  | _, _ => false
  end.

(** [s.startswith(p)] *)
Fixpoint startswith (p s : str) : bool :=
  match p, s with
  | [], _ => true
  | x :: p', y :: s' => (x =? y)%N && startswith p' s'
  | _ :: _, [] => false
  end.

(** [sub in s] *)
Fixpoint contains (sub s : str) : bool :=
  startswith sub s ||
  match s with
  | [] => false
  | _ :: s' => contains sub s'
  end.

(** [c in s] for a one-character [c] *)
Definition has_char (c : N) (s : str) : bool := existsb (N.eqb c) s.

(** [s.split(sep)] for a one-character separator: never the empty list. *)
Fixpoint split (sep : N) (s : str) : list str :=
  match s with
  | [] => [[]]
  | x :: s' =>
      if (x =? sep)%N then [] :: split sep s'
      else match split sep s' with
           | [] => [[x]]
           | w :: ws => (x :: w) :: ws
           end
  end.

(** [str.isspace] of one character, which is also [\s] of [re]. *)
Definition isspace (c : N) : bool :=
  ((9 <=? c) && (c <=? 13) || (28 <=? c) && (c <=? 32) ||
   (c =? 133) || (c =? 160) || (c =? 5760) ||
   (8192 <=? c) && (c <=? 8202) || (c =? 8232) || (c =? 8233) ||
   (c =? 8239) || (c =? 8287) || (c =? 12288))%N.

Fixpoint lstrip_by (p : N -> bool) (s : str) : str :=
  match s with
  | [] => []
  | x :: s' => if p x then lstrip_by p s' else s
  end.

Definition rstrip_by (p : N -> bool) (s : str) : str :=
  rev (lstrip_by p (rev s)).

(** [s.strip()] *)
Definition strip (s : str) : str := rstrip_by isspace (lstrip_by isspace s).

(** [s.rstrip(chars)] *)
Definition rstrip (chars : str) (s : str) : str :=
  rstrip_by (fun c => has_char c chars) s.

(** [sep.join(l)] *)
Fixpoint join (sep : str) (l : list str) : str :=
  match l with
  | [] => []
  | [w] => w
  | w :: ws => w ++ sep ++ join sep ws
  end.

(** [s.replace(old, new)] for a non-empty [old]: occurrences are replaced
    from left to right and do not overlap; [skip] counts the characters of
    the occurrence just replaced that are still to be dropped. *)
Fixpoint replace_go (old new : str) (s : str) (skip : nat) : str :=
  match s with
  | [] => []
  | x :: s' =>
      match skip with
      | S n => replace_go old new s' n
      | O =>
          if startswith old s then new ++ replace_go old new s' (length old - 1)
          else x :: replace_go old new s' 0
      end
  end.

Definition replace (old new s : str) : str := replace_go old new s 0.

End Str.
Import Str.

(* ================================================================== *)
(** * Regular expressions, as Python's [re] runs them *)
(* ================================================================== *)

Module Re.

(** Zeros of the runs of decimal digits (general category Nd) of the Unicode
    database of CPython 3.11, with the length of each run; [\d] matches
    exactly these characters, and [float] reads each as its digit. *)
Definition digit_runs : list (N * N) :=
  map (fun z => (z, 10%N))
    [48; 1632; 1776; 1984; 2406; 2534; 2662; 2790; 2918; 3046; 3174; 3302;
     3430; 3558; 3664; 3792; 3872; 4160; 4240; 6112; 6160; 6470; 6608; 6784;
     6800; 6992; 7088; 7232; 7248; 42528; 43216; 43264; 43472; 43504; 43600;
     44016; 65296; 66720; 68912; 69734; 69872; 69942; 70096; 70384; 70736;
     70864; 71248; 71360; 71472; 71904; 72016; 72784; 73040; 73120; 92768;
     92864; 93008]%N
  ++ [(120782, 50)]%N
  ++ map (fun z => (z, 10%N)) [123200; 123632; 125264; 130032]%N.

(** The value of [c] as a digit of one of the runs. *)
Fixpoint digit_in (runs : list (N * N)) (c : N) : option N :=
  match runs with
  | [] => None
  | (z, n) :: runs' =>
      if ((z <=? c) && (c <? z + n))%N then Some ((c - z) mod 10)%N
      else digit_in runs' c
  end.

(** The decimal value of a digit character, [None] for other characters. *)
Definition digit_value (c : N) : option N := digit_in digit_runs c.

(** [\d] of one character. *)
Definition isdigit (c : N) : bool :=
  match digit_value c with Some _ => true | None => false end.

(** Character classes. *)
Inductive cclass :=
| CChar (c : N)            (* a literal character *)
| CDigit                   (* \d *)
| CSpace                   (* \s *)
| CAny                     (* .  : any character but a newline *)
| COr (a b : cclass)       (* [ab] *)
| CNot (a : cclass).       (* [^a] *)

(** The character [x] is in the class. *)
Fixpoint cmatch (cl : cclass) (x : N) : bool :=
  match cl with
  | CChar c => (x =? c)%N
  | CDigit => isdigit x
  | CSpace => isspace x
  | CAny => negb (x =? 10)%N
  | COr a b => cmatch a x || cmatch b x
  | CNot a => negb (cmatch a x)
  end.

(** The fragment of the syntax of [re] that the source uses: quantifiers
    are applied to character classes only, except [?]. *)
Inductive regex :=
| RCls (c : cclass)
| RLit (s : str)               (* a literal string, also [re.escape(s)] *)
| RSeq (a b : regex)
| RAlt (a b : regex)           (* a|b *)
| ROpt (a : regex)             (* a?  *)
| RStar (c : cclass)           (* c*  *)
| RPlus (c : cclass)           (* c+  *)
| RPlusLazy (c : cclass)       (* c+? *)
| RGroup (i : nat) (a : regex).  (* the i-th capture group *)

(** The captured groups, latest first; a group that did not take part in
    the match has no entry ([m.group(i)] is [None]). *)
Definition groups := list (nat * str).

(** [m.group(i)] *)
Fixpoint group (g : groups) (i : nat) : option str :=
  match g with
  | [] => None
  | (j, w) :: g' => if Nat.eqb i j then Some w else group g' i
  end.

Section Matcher.
Variable A : Type.

(** Backtracking: the first way that succeeds. *)
Definition orelse (x : option A) (y : option A) : option A :=
  match x with Some r => Some r | None => y end.

(** [c*] then [k], longest run first. *)
Fixpoint star_greedy (c : cclass) (s : str) (k : str -> option A) : option A :=
  match s with
  | x :: s' =>
      if cmatch c x then orelse (star_greedy c s' k) (k s) else k s
  | [] => k s
  end.

(** [c*?] then [k], shortest run first. *)
Fixpoint star_lazy (c : cclass) (s : str) (k : str -> option A) : option A :=
  orelse (k s)
    match s with
    | x :: s' => if cmatch c x then star_lazy c s' k else None
    | [] => None
    end.

(** Match [r] at the start of [s], then continue with [k] on the rest;
    [None] when every way of matching fails. *)
Fixpoint rx (r : regex) (s : str) (g : groups)
    (k : str -> groups -> option A) : option A :=
  match r with
  | RCls c =>
      match s with
      | x :: s' => if cmatch c x then k s' g else None
      | [] => None
      end
  | RLit l => if startswith l s then k (skipn (length l) s) g else None
  | RSeq a b => rx a s g (fun s' g' => rx b s' g' k)
  | RAlt a b => orelse (rx a s g k) (rx b s g k)
  | ROpt a => orelse (rx a s g k) (k s g)
  | RStar c => star_greedy c s (fun s' => k s' g)
  | RPlus c =>
      match s with
      | x :: s' => if cmatch c x then star_greedy c s' (fun s'' => k s'' g) else None
      | [] => None
      end
  | RPlusLazy c =>
      match s with
      | x :: s' => if cmatch c x then star_lazy c s' (fun s'' => k s'' g) else None
      | [] => None
      end
  | RGroup i a =>
      rx a s g (fun s' g' => k s' ((i, firstn (length s - length s') s) :: g'))
  end.
End Matcher.

(** [re.match(r, s)]: the groups and the unmatched rest. *)
Definition re_match (r : regex) (s : str) : option (groups * str) :=
  rx r s [] (fun s' g => Some (g, s')).

(** [re.search(r, s)]: the match at the leftmost position that has one. *)
Fixpoint re_search (r : regex) (s : str) : option (groups * str) :=
  match re_match r s with
  | Some m => Some m
  | None => match s with
            | [] => None
            | _ :: s' => re_search r s'
            end
  end.

(** [re.findall(r, s)] for a pattern with one group that matches no empty
    string: group 1 of the successive non-overlapping matches; [skip] counts
    the characters of the last match still to be passed. *)
Fixpoint findall_go (r : regex) (s : str) (skip : nat) : list str :=
  match s with
  | [] => []
  | _ :: s' =>
      match skip with
      | S n => findall_go r s' n
      | O =>
          match re_match r s with
          | Some (g, rest) =>
              match group g 1 with
              | Some w => w :: findall_go r s' (length s - length rest - 1)
              | None => findall_go r s' (length s - length rest - 1)
              end
          | None => findall_go r s' 0
          end
      end
  end.

Definition findall (r : regex) (s : str) : list str := findall_go r s 0.

End Re.
Import Re.

(* ================================================================== *)
(** * Python floats *)
(* ================================================================== *)

Module Float.

(** The binary64 values that [float] of a decimal literal can be:
    [Fin neg m e] is [(-1)^neg * m * 2^e] (with [m = 0] for the two zeros),
    [Inf neg] an infinity.  No NaN arises from a decimal literal. *)
Inductive pyfloat :=
| Fin (neg : bool) (m : Z) (e : Z)
| Inf (neg : bool).

(** [2^e], and 1 for a negative [e]. *)
Definition pow2 (e : Z) : Z := (2 ^ Z.max 0 e)%Z.

(** The binary64 nearest to [n / d] (ties to even) for [0 <= n], [0 < d]:
    the exponent [e] gives the quotient 53 bits, and is not below that of
    the subnormal numbers; values from [2^1024] on overflow to infinity. *)
Definition round_binary64 (neg : bool) (n d : Z) : pyfloat :=
  if (n =? 0)%Z then Fin neg 0 0
  else
    let e0 := (Z.log2 n - Z.log2 d - 54)%Z in
    let q0 := (n * pow2 (- e0) / (d * pow2 e0))%Z in
    let e := Z.max (e0 + Z.log2 q0 - 52) (-1074) in
    let num := (n * pow2 (- e))%Z in
    let den := (d * pow2 e)%Z in
    let q := (num / den)%Z in
    let r := (num mod den)%Z in
    let m := if ((den <? 2 * r) || ((2 * r =? den) && Z.odd q))%Z
             then (q + 1)%Z else q in
    if (pow2 1024 <=? m * pow2 e)%Z then Inf neg else Fin neg m e.

(** The leading digits of [s], as their values, and what follows them. *)
Fixpoint take_digits (s : str) : list N * str :=
  match s with
  | [] => ([], [])
  | x :: s' =>
      match digit_value x with
      | Some v => let (ds, rest) := take_digits s' in (v :: ds, rest)
      | None => ([], s)
      end
  end.

(** The number that a row of digits writes in base ten. *)
Definition decimal (ds : list N) : Z :=
  fold_left (fun acc v => (10 * acc + Z.of_N v)%Z) ds 0%Z.

(** The fraction [n / d] that an unsigned literal (digits, and optionally a
    point and more digits) denotes. *)
Definition parse_decimal (s : str) : option (Z * Z) :=
  let (ip, s2) := take_digits s in
  match ip with
  | [] => None
  | _ :: _ =>
      match s2 with
      | [] => Some (decimal ip, 1%Z)
      | x :: s3 =>
          if (x =? 46)%N then
            let (fp, s4) := take_digits s3 in
            match s4 with
            | [] => Some (decimal (ip ++ fp), (10 ^ Z.of_nat (length fp))%Z)
            | _ :: _ => None
            end
          else None
      end
  end.

(** The float of a fraction with a sign. *)
Definition round_to (neg : bool) (nd : Z * Z) : pyfloat :=
  round_binary64 neg (fst nd) (snd nd).

(** [float(s)] for the literals made of an optional minus sign, digits,
    and optionally a point and more digits, the only ones the program
    converts: [Some] of the correctly rounded value.  [None] stands for a
    string of another shape, on which this model does not follow [float]
    (which reads some of them and raises [ValueError] on the others). *)
Definition py_float (s : str) : option pyfloat :=
  match s with
  | [] => None
  | x :: s' =>
      if (x =? 45)%N then option_map (round_to true) (parse_decimal s')
      else option_map (round_to false) (parse_decimal s)
  end.

(** [abs(x)] *)
Definition fabs (x : pyfloat) : pyfloat :=
  match x with
  | Fin _ m e => Fin false m e
  | Inf _ => Inf false
  end.

(** The mantissa with its sign. *)
Definition signed (neg : bool) (m : Z) : Z := if neg then (- m)%Z else m.

(** The order of two floats; the two zeros are equal. *)
Definition fcompare (x y : pyfloat) : comparison :=
  match x, y with
  | Fin n1 m1 e1, Fin n2 m2 e2 =>
      let e := Z.min e1 e2 in
      (signed n1 m1 * pow2 (e1 - e) ?= signed n2 m2 * pow2 (e2 - e))%Z
  | Fin _ _ _, Inf neg => if neg then Gt else Lt
  | Inf neg, Fin _ _ _ => if neg then Lt else Gt
  | Inf n1, Inf n2 =>
      match n1, n2 with
      | true, false => Lt
      | false, true => Gt
      | _, _ => Eq
      end
  end.

(** [x > y], [x < y], [x >= y] and [x <= y] *)
Definition fgt (x y : pyfloat) : bool :=
  match fcompare x y with Gt => true | _ => false end.
Definition flt (x y : pyfloat) : bool :=
  match fcompare x y with Lt => true | _ => false end.
Definition fge (x y : pyfloat) : bool :=
  match fcompare x y with Lt => false | _ => true end.
Definition fle (x y : pyfloat) : bool :=
  match fcompare x y with Gt => false | _ => true end.

End Float.
Import Float.

(* ================================================================== *)
(** * Exceptions *)
(* ================================================================== *)

(** The outcome of code that may raise: [Raise] is any Python exception. *)
Inductive exc (A : Type) :=
| Ok (a : A)
| Raise.
Arguments Ok {A} a.
Arguments Raise {A}.

(** Sequencing: an exception of the first part ends the whole. *)
Definition bind_exc {A B : Type} (x : exc A) (f : A -> exc B) : exc B :=
  match x with
  | Ok a => f a
  | Raise => Raise
  end.

Notation "'do' x <- c1 ; c2" := (bind_exc c1 (fun x => c2))
  (at level 10, x name, c1 at level 100, c2 at level 200).

(** A list comprehension whose body may raise. *)
Fixpoint map_exc {A B : Type} (f : A -> exc B) (l : list A) : exc (list B) :=
  match l with
  | [] => Ok []
  | a :: l' => do b <- f a; do bs <- map_exc f l'; Ok (b :: bs)
  end.

(** A missing value raises. *)
Definition of_option {A : Type} (x : option A) : exc A :=
  match x with
  | Some a => Ok a
  | None => Raise
  end.

(* ================================================================== *)
(** * The filter language: [parse_filter] and [evaluate_filter] *)
(* ================================================================== *)

Module Filter.

Local Open Scope string_scope.

Notation "a >> b" := (RSeq a b) (at level 60, right associativity).

(** Literals of the patterns, written as Rocq strings. *)
Definition lit (s : string) : regex := RLit (py s).
Definition one (s : string) : cclass := CChar (chr s).

(** The dictionaries that [parse_single_condition] builds, one constructor
    for each value of ['type']; the fields are the strings of the source. *)
Inductive Condition :=
| Text (value : str)
| Alternatives (values : list str)
| Timer (operator : str) (value : str)
| Numeric (key : str) (operator : str) (value : str).

(** The stopwatch of the source's patterns: U+23F1 and the variation
    selector U+FE0F. *)
Definition stopwatch : str := [9201; 65039]%N.

(** [[><]=?] *)
Definition operator_re : regex :=
  RCls (COr (one ">") (one "<")) >> ROpt (RCls (one "=")).

(** [\d+\.?\d*] *)
Definition number_re : regex :=
  RPlus CDigit >> ROpt (RCls (one ".")) >> RStar CDigit.

(** The pattern of line 79: the stopwatch, [{], group 1 [[><]=?],
    group 2 [\d+\.?\d*], [\}\s*min]. *)
Definition timer_filter_re : regex :=
  RLit stopwatch >> lit "{" >> RGroup 1 operator_re >> RGroup 2 number_re >>
  lit "}" >> RStar CSpace >> lit "min".

(** [\d+\.?\d*[%s]?] *)
Definition value_re : regex :=
  number_re >> ROpt (RCls (COr (one "%") (one "s"))).

(** The pattern of line 91: group 1 [.+?], [\{], group 2 [[><]=?],
    group 3 [\d+\.?\d*[%s]?], [\}]. *)
Definition numeric_filter_re : regex :=
  RGroup 1 (RPlusLazy CAny) >> lit "{" >> RGroup 2 operator_re >>
  RGroup 3 value_re >> lit "}".

(** The pattern of line 136: the stopwatch, [\s*], group 1 [\d+\.?\d*],
    [\s*min]. *)
Definition timer_post_re : regex :=
  RLit stopwatch >> RStar CSpace >> RGroup 1 number_re >> RStar CSpace >>
  lit "min".

(** [[-]?\d+\.?\d*] *)
Definition signed_re : regex := ROpt (RCls (one "-")) >> number_re.

(** The pattern of line 159: the escaped key, [[\s:]*], group 1
    [[-]?\d+\.?\d*], [\s*], group 2 [(%|s)?]. *)
Definition numeric_post_re (key : str) : regex :=
  RLit key >> RStar (COr CSpace (one ":")) >>
  RGroup 1 signed_re >> RStar CSpace >>
  ROpt (RGroup 2 (RAlt (lit "%") (lit "s"))).

(** The pattern of line 54: a double quote (character 34), group 1 made of
    one or more characters other than it, a double quote. *)
Definition quoted_re : regex :=
  RLit [34%N] >> RGroup 1 (RPlus (CNot (CChar 34%N))) >> RLit [34%N].

(** [m.group(i)], with the empty string for a group that took no part in
    the match ([None] in Python).  Only group 2 of [numeric_post_re] can
    be absent, and line 165 of the source reads it as the empty string;
    the other groups are part of every match of their pattern (lemmas
    [timer_filter_inv], [numeric_filter_inv], [timer_post_inv] and
    [numeric_post_inv]). *)
Definition group_of (g : groups) (i : nat) : str :=
  match group g i with
  | Some w => w
  | None => []
  end.

Definition parse_single_condition (condition : str) : Condition :=
  if has_char (chr "/") condition then
    Alternatives (split (chr "/") condition)
  else
    match re_match timer_filter_re condition with
    | Some (g, _) => Timer (group_of g 1) (group_of g 2)
    | None =>
        match re_match numeric_filter_re condition with
        | Some (g, _) =>
            Numeric (strip (group_of g 1)) (group_of g 2) (group_of g 3)
        | None => Text condition
        end
    end.

(** The truth value of a string. *)
Definition nonempty (s : str) : bool :=
  match s with [] => false | _ :: _ => true end.

Definition parse_filter (filter_text : str) : list Condition :=
  if has_char 34%N filter_text then
    map parse_single_condition (findall quoted_re filter_text)
  else
    map parse_single_condition
      (filter nonempty (map strip (split 10%N filter_text))).

(** The chain of comparisons on ['operator']; with another operator the
    source leaves [result] unbound and [return result] raises. *)
Definition compare_with (operator : str) (post_value target_value : pyfloat)
    : exc bool :=
  if eqb operator (py ">") then Ok (fgt post_value target_value)
  else if eqb operator (py "<") then Ok (flt post_value target_value)
  else if eqb operator (py ">=") then Ok (fge post_value target_value)
  else if eqb operator (py "<=") then Ok (fle post_value target_value)
  else Raise.

(** [value[-1] if value[-1] in '%s' else None]; [value[-1]] raises on the
    empty string. *)
Definition expected_unit_of (value : str) : exc (option str) :=
  match rev value with
  | [] => Raise
  | c :: _ => Ok (if has_char c (py "%s") then Some [c] else None)
  end.

(** Lines 172-177: [true] when the comparison goes on, [false] when the
    units differ.  A [str] never equals [None]. *)
Definition units_agree (unit : str) (expected_unit : option str) : bool :=
  match expected_unit with
  | None => negb (nonempty unit)
  | Some u => eqb unit u
  end.

Definition check_condition (post_text : str) (condition : Condition)
    : exc bool :=
  match condition with
  | Text value => Ok (contains value post_text)
  | Alternatives values =>
      Ok (existsb (fun val => contains val post_text) values)
  | Timer operator value =>
      match re_search timer_post_re post_text with
      | None => Ok false
      | Some (g, _) =>
          do post_value <- of_option (py_float (group_of g 1));
          do target_value <- of_option (py_float value);
          compare_with operator post_value target_value
      end
  | Numeric key operator value =>
      match re_search (numeric_post_re key) post_text with
      | None => Ok false
      | Some (g, _) =>
          do post_value <- of_option (py_float (group_of g 1));
          let unit := group_of g 2 in
          do expected_unit <- expected_unit_of value;
          do target_value <- of_option (py_float (rstrip (py "%s") value));
          if units_agree unit expected_unit then
            compare_with operator (fabs post_value) target_value
          else Ok false
      end
  end.

Definition evaluate_filter (post_text : str) (conditions : list Condition)
    (all_must_match : bool) : exc bool :=
  match conditions with
  | [] => Ok true
  | _ :: _ =>
      do results <- map_exc (check_condition post_text) conditions;
      Ok (if all_must_match then forallb (fun b => b) results
          else existsb (fun b => b) results)
  end.

End Filter.
Import Filter.

(* ================================================================== *)
(** * Call templates: [format_call_message] *)
(* ================================================================== *)

Module Template.

Local Open Scope string_scope.

(** A parsed call template: a dictionary from a tag to its lines, in the
    order of insertion of its keys, which are distinct. *)
Definition CallTemplate := list (str * list str).

(** [d.get(k)] *)
Fixpoint get {V : Type} (d : list (str * V)) (k : str) : option V :=
  match d with
  | [] => None
  | (k', v) :: d' => if eqb k k' then Some v else get d' k
  end.

(** [d[k] = v]: the value of an old key is replaced where it is, a new key
    goes to the end. *)
Fixpoint set_item {V : Type} (d : list (str * V)) (k : str) (v : V)
    : list (str * V) :=
  match d with
  | [] => [(k, v)]
  | (k', v') :: d' =>
      if eqb k k' then (k, v) :: d' else (k', v') :: set_item d' k v
  end.

(** The pattern of line 203: the trigger keyword in braces with one of the
    three tags, which is group 1. *)
Definition trigger_re : regex :=
  lit "{ЕСЛИ В ПОСТЕ " >>
  RGroup 1 (RAlt (lit "🔴") (RAlt (lit "🟢") (lit "🟥"))) >> lit "}".

(** Lines 201-208, the loop over the lines of a template. *)
Fixpoint parse_template_lines (lines : list str) (call_template : CallTemplate)
    (current_type : option str) : CallTemplate :=
  match lines with
  | [] => call_template
  | line :: rest =>
      let line := strip line in
      match re_match trigger_re line with
      | Some (g, _) =>
          let tag := group_of g 1 in
          parse_template_lines rest (set_item call_template tag []) (Some tag)
      | None =>
          match line, current_type with
          | _ :: _, Some (c :: tag) =>
              let old := match get call_template (c :: tag) with
                         | Some l => l
                         | None => []
                         end in
              parse_template_lines rest
                (set_item call_template (c :: tag) (old ++ [line]))%list
                current_type
          | _, _ => parse_template_lines rest call_template current_type
          end
      end
  end.

Definition parse_call_template (template_text : str) : CallTemplate :=
  parse_template_lines (split 10%N (strip template_text)) [] None.

(** Lines 220-224: the first key of the template that occurs in the post. *)
Fixpoint call_type_of (post_text : str) (call_template : CallTemplate)
    : option str :=
  match call_template with
  | [] => None
  | (emoji, _) :: rest =>
      if contains emoji post_text then Some emoji
      else call_type_of post_text rest
  end.

(** The pattern of line 233: [{], group 1 made of one or more characters
    other than [}], then [}]. *)
Definition placeholder_re : regex :=
  lit "{" >> RGroup 1 (RPlus (CNot (one "}"))) >> lit "}".

(** [\s*\$?], shared by the two price patterns. *)
Definition dollar_re : regex := RStar CSpace >> ROpt (RCls (one "$")).

(** The dictionary of lines 236-241. *)
Definition extraction_patterns : list (str * regex) :=
  [ (py "Now last price",
     lit "Now last price:" >> dollar_re >> RGroup 1 number_re);
    (py "Price",
     lit "Price:" >> dollar_re >>
     RGroup 1 (RPlus CDigit >> ROpt (RCls (one ".")) >> RPlus CDigit));
    (py "ETA",
     lit "ETA:" >> RStar CSpace >> RGroup 1 (RPlus CDigit >> lit "m")) ].

Definition NA : str := py "N/A".

(** Lines 245-252: the value of one placeholder. *)
Definition value_of (post_text : str) (placeholder : str) : str :=
  match get extraction_patterns placeholder with
  | Some pattern =>
      match re_search pattern post_text with
      | Some (g, _) => group_of g 1
      | None => NA
      end
  | None => NA
  end.

(** The distinct elements of a list, each at its first place. *)
Fixpoint distinct (l : list str) : list str :=
  match l with
  | [] => []
  | x :: l' => x :: filter (fun y => negb (eqb x y)) (distinct l')
  end.

(** Lines 231-233: the elements of the set [placeholders]. *)
Definition placeholders_of (lines : list str) : list str :=
  distinct (flat_map (findall placeholder_re) lines).

(** Lines 258-260: the replacements made in one line, in the order of
    [values.items()]. *)
Definition format_line (values : list (str * str)) (line : str) : str :=
  fold_left
    (fun formatted_line pv =>
       replace (py "{" ++ fst pv ++ py "}")%list (snd pv) formatted_line)
    values line.

Section Formatter.
(** The order in which Python iterates over a set of strings: it depends
    on the hashes of the run, and is left open. *)
Variable set_order : list str -> list str.

Definition format_call_message (post_text : str)
    (call_template : option CallTemplate) : option str :=
  match call_template with
  | None | Some [] => None
  | Some tpl =>
      match call_type_of post_text tpl with
      | None | Some [] => None
      | Some call_type =>
          match get tpl call_type with
          | None | Some [] => None
          | Some call_lines =>
              let placeholders := set_order (placeholders_of call_lines) in
              let values :=
                map (fun ph => (ph, value_of post_text ph)) placeholders in
              Some (join [10%N] (map (format_line values) call_lines))
          end
      end
  end.
End Formatter.

End Template.
Import Template.

(* ================================================================== *)
(** * [json.dumps] of a condition *)
(* ================================================================== *)

Module Json.

Local Open Scope string_scope.
Local Open Scope list_scope.

Definition hex_digit (n : N) : N :=
  if (n <? 10)%N then (48 + n)%N else (87 + n)%N.

(** The escape [\uXXXX] of a 16-bit code unit. *)
Definition u_escape (c : N) : str :=
  [92; 117]%N ++
  [hex_digit (c / 4096 mod 16); hex_digit (c / 256 mod 16);
   hex_digit (c / 16 mod 16); hex_digit (c mod 16)]%N.

(** One character of a JSON string under [ensure_ascii=True]. *)
Definition escape_char (c : N) : str :=
  if (c =? 34)%N then [92; 34]%N
  else if (c =? 92)%N then [92; 92]%N
  else if (c =? 10)%N then py "\n"
  else if (c =? 13)%N then py "\r"
  else if (c =? 9)%N then py "\t"
  else if (c =? 8)%N then py "\b"
  else if (c =? 12)%N then py "\f"
  else if ((32 <=? c) && (c <=? 126))%N then [c]
  else if (c <? 65536)%N then u_escape c
  else u_escape (55296 + (c - 65536) / 1024)%N ++
       u_escape (56320 + (c - 65536) mod 1024)%N.

Definition dumps_str (s : str) : str :=
  [34%N] ++ flat_map escape_char s ++ [34%N].

Definition dumps_list (l : list str) : str :=
  py "[" ++ join (py ", ") (map dumps_str l) ++ py "]".

(** A dictionary with string keys, whose values are already dumped. *)
Definition dumps_dict (items : list (string * str)) : str :=
  py "{" ++
  join (py ", ")
    (map (fun kv => dumps_str (py (fst kv)) ++ py ": " ++ snd kv) items) ++
  py "}".

(** [json.dumps(cond)]: the keys come in the order in which
    [parse_single_condition] inserts them, which the channel file keeps. *)
Definition dumps (cond : Condition) : str :=
  match cond with
  | Text value =>
      dumps_dict [("type", dumps_str (py "text")); ("value", dumps_str value)]
  | Alternatives values =>
      dumps_dict [("type", dumps_str (py "alternatives"));
                  ("values", dumps_list values)]
  | Timer operator value =>
      dumps_dict [("type", dumps_str (py "timer"));
                  ("operator", dumps_str operator);
                  ("value", dumps_str value)]
  | Numeric key operator value =>
      dumps_dict [("type", dumps_str (py "condition"));
                  ("key", dumps_str key);
                  ("operator", dumps_str operator);
                  ("value", dumps_str value)]
  end.

End Json.

(* ================================================================== *)
(** * The polling loop: [poll_channels] *)
(* ================================================================== *)

Module Poll.

Local Open Scope string_scope.
Local Open Scope list_scope.
Local Open Scope Z_scope.

(** A fetched post; [raw_text] and [timestamp] are not read by the loop. *)
Record Post := mkPost {
  id : Z;
  text : str;
  url : str
}.

(** One entry of [channels.json]. *)
Record ChannelData := mkChannel {
  filter_of : list Condition;        (* 'filter' *)
  last_post_id : Z;                  (* 'last_post_id' *)
  call_template : option CallTemplate  (* 'call_template' *)
}.

(** The dictionary of channels, in the order of its keys. *)
Definition Channels := list (str * ChannelData).

(** The calls made to the collaborators. *)
Inductive event :=
| Fetch (channel : str)                       (* fetch_posts(channel) *)
| Save (channels : Channels)                  (* save_channels(channels) *)
| Send (text : str) (html : bool) (delivered : bool).
                                     (* bot.send_message(...), and whether
                                        it returned rather than raised *)

Definition trace := list event.

(** The channel file holds a dictionary of channels.  [load_channels]
    reads it and [save_channels] replaces it; the failures of the file
    system, which both functions only log, are not modelled. *)
Definition load_channels (file : Channels) : Channels := file.

Definition save_channels (channels : Channels) (file : Channels) : Channels :=
  channels.

(** [channels[channel]['last_post_id'] = n] *)
Definition set_last_post_id (data : ChannelData) (n : Z) : ChannelData :=
  mkChannel (filter_of data) n (call_template data).

(** Line 670. *)
Definition all_must_match_of (conditions : list Condition) : bool :=
  existsb (fun cond => has_char 34%N (Json.dumps cond)) conditions.

(** [max(post['id'] for post in posts)], which raises on no post. *)
Definition max_post_id (posts : list Post) : exc Z :=
  match posts with
  | [] => Raise
  | p :: ps => Ok (fold_left (fun m q => Z.max m (id q)) ps (id p))
  end.

(** [sorted(new_posts, key=lambda x: x['id'])], a stable sort. *)
Fixpoint insert_post (p : Post) (l : list Post) : list Post :=
  match l with
  | [] => [p]
  | q :: l' => if id p <=? id q then p :: l else q :: insert_post p l'
  end.

Fixpoint sorted_posts (l : list Post) : list Post :=
  match l with
  | [] => []
  | p :: l' => insert_post p (sorted_posts l')
  end.

(** The two texts of lines 674-678 and 690. *)
Definition fallback_message (channel : str) (post : Post) : str :=
  py "From " ++ channel ++ py ":" ++ [10%N] ++ url post.

Definition truthy (s : option str) : bool :=
  match s with
  | Some (_ :: _) => true
  | _ => false
  end.

Section World.
(** The content source: the posts [fetch_posts] returns for a channel
    during the cycles considered. *)
Variable fetch : str -> list Post.
(** The sink: whether [send_message] of a text returns, given the calls
    made so far. *)
Variable sink : trace -> str -> bool -> bool.
(** The iteration order of sets, see [format_call_message]. *)
Variable set_order : list str -> list str.

Definition primary_message (channel : str) (data : ChannelData)
    (post : Post) : str :=
  let formatted_message := fallback_message channel post in
  let call_message :=
    match call_template data with
    | Some (_ :: _) =>
        format_call_message set_order (text post) (call_template data)
    | _ => None
    end in
  if truthy call_message then
    formatted_message ++ [10%N; 10%N] ++
    match call_message with Some m => m | None => [] end
  else formatted_message.

(** Lines 668-694, the loop over the sorted new posts: the trace, and
    whether the loop ended or an exception left it. *)
Fixpoint forward (channel : str) (data : ChannelData) (posts : list Post)
    (tr : trace) : trace * exc unit :=
  match posts with
  | [] => (tr, Ok tt)
  | post :: rest =>
      let all_must_match := all_must_match_of (filter_of data) in
      match evaluate_filter (text post) (filter_of data) all_must_match with
      | Raise => (tr, Raise)
      | Ok false => forward channel data rest tr
      | Ok true =>
          let msg := primary_message channel data post in
          if sink tr msg true then
            forward channel data rest (tr ++ [Send msg true true])
          else
            let tr1 := tr ++ [Send msg true false] in
            let fb := fallback_message channel post in
            if sink tr1 fb false then
              forward channel data rest (tr1 ++ [Send fb false true])
            else (tr1 ++ [Send fb false false], Raise)
      end
  end.

(** Lines 648-697, the body of the loop for one channel; [before] and
    [after] are the other entries of the dictionary [channels], [file]
    the content of the channel file.  An exception ends the body in the
    handler of line 696, which only logs.  The result: the entry of the
    channel, the file and the trace. *)
Definition poll_channel (before : Channels) (channel : str)
    (data : ChannelData) (after : Channels) (file : Channels) (tr : trace)
    : ChannelData * Channels * trace :=
  match filter_of data with
  | [] => (data, file, tr)
  | _ :: _ =>
      let posts := fetch channel in
      let tr1 := tr ++ [Fetch channel] in
      let new_posts := filter (fun post => last_post_id data <? id post) posts in
      match new_posts with
      | [] => (data, file, tr1)
      | _ :: _ =>
          match max_post_id posts with
          | Raise => (data, file, tr1)
          | Ok max_id =>
              let data' := set_last_post_id data max_id in
              let channels := before ++ (channel, data') :: after in
              let tr2 := tr1 ++ [Save channels] in
              (data', save_channels channels file,
               fst (forward channel data' (sorted_posts new_posts) tr2))
          end
      end
  end.

(** Line 647, the loop over [channels.items()]. *)
Fixpoint poll_loop (before todo : Channels) (file : Channels) (tr : trace)
    : Channels * trace :=
  match todo with
  | [] => (file, tr)
  | (channel, data) :: after =>
      let '(data', file', tr') :=
        poll_channel before channel data after file tr in
      poll_loop (before ++ [(channel, data')]) after file' tr'
  end.

(** One run of [poll_channels], lines 642-700; the pauses between the
    channels are not modelled.  The result is the file after the run and
    the calls made. *)
Definition poll_channels (file : Channels) : Channels * trace :=
  poll_loop [] (load_channels file) file [].
End World.

End Poll.
Import Poll.

(* ================================================================== *)
(** * The statistics of a channel: [get_channel_stats] *)
(* ================================================================== *)

Module Stats.

Local Open Scope string_scope.
Local Open Scope list_scope.

(** The [datetime] of a post: its calendar day, as the day number
    [date.toordinal()], and the time within that day.  Only [.date()] is
    taken of it. *)
Record datetime := mkDatetime {
  date : Z;
  time_of_day : Z
}.

(** A post of [fetch_posts] with its ['timestamp'], which is [None] when
    the page gives no time for it. *)
Record StampedPost := mkStamped {
  post_of : Post;
  timestamp : option datetime
}.

(** The dictionary [get_channel_stats] returns. *)
Record ChannelStats := mkStats {
  total_posts : nat;
  filtered_posts : nat;
  most_common_words : list (str * nat);
  active_days : nat
}.

(** [s.split()] without argument: the maximal runs of characters that are
    not white space; [word] is the run being read. *)
Fixpoint split_ws_go (word : str) (s : str) : list str :=
  match s with
  | [] => match word with [] => [] | _ :: _ => [word] end
  | c :: s' =>
      if isspace c then
        match word with
        | [] => split_ws_go [] s'
        | _ :: _ => word :: split_ws_go [] s'
        end
      else split_ws_go (word ++ [c]) s'
  end.

Definition split_ws (s : str) : list str := split_ws_go [] s.

(** Line 349: the number of posts for which [evaluate_filter] with its
    default [all_must_match=False] is true; an exception of the filter
    leaves the sum. *)
Fixpoint count_filtered (posts : list StampedPost) (filters : list Condition)
    : exc nat :=
  match posts with
  | [] => Ok 0
  | post :: rest =>
      do passed <- evaluate_filter (text (post_of post)) filters false;
      do n <- count_filtered rest filters;
      Ok (if passed then S n else n)
  end.

(** Lines 355-357, the loop over the words of one post. *)
Definition count_words (word_counts : list (str * nat)) (words : list str)
    : list (str * nat) :=
  fold_left
    (fun word_counts word =>
       if (3 <? List.length word)%nat then
         set_item word_counts word
           (match get word_counts word with Some n => n | None => 0 end + 1)%nat
       else word_counts)
    words word_counts.

(** [sorted(items, key=lambda x: x[1], reverse=True)]: descending counts,
    items of equal count in their original order. *)
Fixpoint insert_item (x : str * nat) (l : list (str * nat))
    : list (str * nat) :=
  match l with
  | [] => [x]
  | y :: l' =>
      if (snd y <=? snd x)%nat then x :: l else y :: insert_item x l'
  end.

Fixpoint sorted_items (l : list (str * nat)) : list (str * nat) :=
  match l with
  | [] => []
  | x :: l' => insert_item x (sorted_items l')
  end.

Section StatsWorld.
(** [str.lower], whose table of the Unicode database is left open. *)
Variable lower : str -> str.
(** The posts [fetch_posts(channel_name, since_time)] returns for the week
    that ends now. *)
Variable fetch_since : str -> list StampedPost.

(** Lines 352-357. *)
Definition word_counts_of (posts : list StampedPost) : list (str * nat) :=
  fold_left
    (fun word_counts post =>
       count_words word_counts (split_ws (lower (text (post_of post)))))
    posts [].

(** Line 359: the days of the posts that have a time, as a set. *)
Definition days_of (posts : list StampedPost) : list Z :=
  nodup Z.eq_dec
    (flat_map
       (fun post => match timestamp post with
                    | Some t => [date t]
                    | None => []
                    end)
       posts).

Definition get_channel_stats (channel_name : str) (filters : list Condition)
    : exc ChannelStats :=
  let posts := fetch_since channel_name in
  match posts with
  | [] => Ok (mkStats 0 0 [] 0)
  | _ :: _ =>
      do filtered <- count_filtered posts filters;
      let top_words := firstn 5 (sorted_items (word_counts_of posts)) in
      Ok (mkStats (length posts) filtered top_words (length (days_of posts)))
  end.
End StatsWorld.

End Stats.
Import Stats.

(* ================================================================== *)
(** * The commands of the administrator *)
(* ================================================================== *)

Module Commands.

Local Open Scope string_scope.
Local Open Scope list_scope.

(** What a handler reads of its [update] and [context.args]. *)
Record Update := mkUpdate {
  user_id : Z;               (* update.effective_user.id *)
  args : list str;           (* context.args *)
  message_text : str         (* update.message.text *)
}.

(** [context.user_data] of the administrator, the only user whose
    updates reach it. *)
Record Session := mkSession {
  setting_filter_for : option str;
  setting_call_for : option str
}.

(** The calls to Telegram. *)
Inductive call :=
| Reply (text : str)       (* update.message.reply_text(text) *)
| Notify (text : str).     (* bot.send_message(DEST_CHANNEL_ID, text) *)

(** The channel file, the session and the calls made so far. *)
Record Bot := mkBot {
  channels_file : Channels;
  user_data : Session;
  telegram_calls : list call
}.

(** A handler changes the bot and returns, or raises. *)
Definition handler := Bot -> Bot * exc unit.

Definition and_then (first : handler) (next : handler) : handler :=
  fun bot =>
    match first bot with
    | (bot', Ok _) => next bot'
    | (bot', Raise) => (bot', Raise)
    end.

Definition done : handler := fun bot => (bot, Ok tt).

(** [del d[k]] for a key of the dictionary. *)
Definition del_item {V : Type} (d : list (str * V)) (k : str)
    : list (str * V) :=
  filter (fun kv => negb (eqb k (fst kv))) d.

(** [str(n)] of a count. *)
Definition str_of_nat (n : nat) : str :=
  py (NilZero.string_of_uint (Nat.to_uint n)).

(** The truth value of [user_data.get(key)]: a non-empty name. *)
Definition pending (name : option str) : option str :=
  match name with
  | Some (c :: s) => Some (c :: s)
  | _ => None
  end.

Definition usage : str := py "Please specify a channel in the format @username".

Section Bot.
(** The identity of the administrator, read from the environment. *)
Variable ADMIN_ID : Z.
(** Whether a call to Telegram returns rather than raises, given the calls
    made before. *)
Variable telegram : list call -> call -> bool.
(** The collaborators of [get_channel_stats]. *)
Variable lower : str -> str.
Variable fetch_since : str -> list StampedPost.

Definition tell (c : call) : handler :=
  fun bot =>
    (mkBot (channels_file bot) (user_data bot) (telegram_calls bot ++ [c]),
     if telegram (telegram_calls bot) c then Ok tt else Raise).

Definition reply_text (text : str) : handler := tell (Reply text).
Definition send_message (text : str) : handler := tell (Notify text).

(** [save_channels(channels)] *)
Definition save (channels : Channels) : handler :=
  fun bot =>
    (mkBot (save_channels channels (channels_file bot)) (user_data bot)
       (telegram_calls bot), Ok tt).

Definition set_user_data (session : Session) : handler :=
  fun bot => (mkBot (channels_file bot) session (telegram_calls bot), Ok tt).

(** Lines 455-464 and their copies: the administrator, and a first
    argument that starts with [@]. *)
Definition with_channel (update : Update) (body : str -> handler) : handler :=
  fun bot =>
    if negb (user_id update =? ADMIN_ID)%Z then (bot, Ok tt)
    else
      match args update with
      | channel :: _ =>
          if startswith (py "@") channel then body channel bot
          else reply_text usage bot
      | [] => reply_text usage bot
      end.

Definition add_channel (update : Update) : handler :=
  with_channel update (fun channel bot =>
    let channels := load_channels (channels_file bot) in
    match get channels channel with
    | Some _ =>
        reply_text (py "Channel " ++ channel ++ py " is already added") bot
    | None =>
        let channels := set_item channels channel (mkChannel [] 0%Z None) in
        and_then (save channels)
          (reply_text
             (py "Channel " ++ channel ++
              py " added. Set a filter with /set_filter " ++ channel ++
              py " and a call template with /set_call " ++ channel)) bot
    end).

Definition remove_channel (update : Update) : handler :=
  with_channel update (fun channel bot =>
    let channels := load_channels (channels_file bot) in
    match get channels channel with
    | None => reply_text (py "Channel " ++ channel ++ py " not found") bot
    | Some _ =>
        and_then (save (del_item channels channel))
          (reply_text (py "Channel " ++ channel ++ py " removed")) bot
    end).

Definition set_filter (update : Update) : handler :=
  with_channel update (fun channel bot =>
    let channels := load_channels (channels_file bot) in
    match get channels channel with
    | None => reply_text (py "Channel " ++ channel ++ py " not added") bot
    | Some _ =>
        and_then
          (set_user_data
             (mkSession (Some channel) (setting_call_for (user_data bot))))
          (reply_text
             (py "Enter the filter for channel " ++ channel ++ [10%N] ++
              py "See /help for filter format")) bot
    end).

Definition set_call (update : Update) : handler :=
  with_channel update (fun channel bot =>
    let channels := load_channels (channels_file bot) in
    match get channels channel with
    | None => reply_text (py "Channel " ++ channel ++ py " not added") bot
    | Some _ =>
        and_then
          (set_user_data
             (mkSession (setting_filter_for (user_data bot)) (Some channel)))
          (reply_text
             (py "Enter the call template for channel " ++ channel ++
              [10%N] ++ py "See /help for call template format")) bot
    end).

(** Lines 566-581: the announcement of a channel that had no filter. *)
Definition announce (filter_channel : str) (filters : list Condition)
    : handler :=
  and_then
    (send_message (py "✅ Added new channel " ++ filter_channel))
    (fun bot =>
       match get_channel_stats lower fetch_since filter_channel filters with
       | Raise => (bot, Raise)
       | Ok stats =>
           send_message
             (py "📊 Channel " ++ filter_channel ++
              py " stats for the last week:" ++ [10%N] ++
              py "Total posts: " ++ str_of_nat (total_posts stats) ++
              [10%N] ++
              py "Filtered posts: " ++ str_of_nat (filtered_posts stats) ++
              [10%N]) bot
       end).

Definition receive_filter_or_call (update : Update) : handler :=
  fun bot =>
    if negb (user_id update =? ADMIN_ID)%Z then (bot, Ok tt)
    else
      let filter_channel := pending (setting_filter_for (user_data bot)) in
      let call_channel := pending (setting_call_for (user_data bot)) in
      match filter_channel, call_channel with
      | None, None => (bot, Ok tt)
      | Some filter_channel, _ =>
          let input_text := strip (message_text update) in
          let channels := load_channels (channels_file bot) in
          match get channels filter_channel with
          | None => (bot, Raise)
          | Some data =>
              let was_empty :=
                match filter_of data with [] => true | _ :: _ => false end in
              let data :=
                mkChannel (parse_filter input_text) (last_post_id data)
                  (call_template data) in
              let channels := set_item channels filter_channel data in
              and_then (save channels)
                (and_then
                   (reply_text
                      (py "Filter for " ++ filter_channel ++ py " set:" ++
                       [10%N] ++ input_text))
                   (and_then
                      (if was_empty
                       then announce filter_channel (filter_of data)
                       else done)
                      (fun bot =>
                         set_user_data
                           (mkSession None (setting_call_for (user_data bot)))
                           bot))) bot
          end
      | None, Some call_channel =>
          let input_text := strip (message_text update) in
          let channels := load_channels (channels_file bot) in
          match get channels call_channel with
          | None => (bot, Raise)
          | Some data =>
              let data :=
                mkChannel (filter_of data) (last_post_id data)
                  (Some (parse_call_template input_text)) in
              let channels := set_item channels call_channel data in
              and_then (save channels)
                (and_then
                   (reply_text
                      (py "Call template for " ++ call_channel ++
                       py " set:" ++ [10%N] ++ input_text))
                   (fun bot =>
                      set_user_data
                        (mkSession (setting_filter_for (user_data bot)) None)
                        bot)) bot
          end
      end.
End Bot.

End Commands.
Import Commands.

Unset Implicit Arguments.

(* ================================================================== *)
(** * The vocabulary of the properties *)
(* ================================================================== *)

Module Notions.

Local Open Scope string_scope.
Local Open Scope list_scope.

(** Every character of the string is in the class. *)
Definition all_in (c : cclass) (w : str) : Prop :=
  Forall (fun x => cmatch c x = true) w.

(** The strings a pattern matches, independently of the matcher. *)
Fixpoint lang (r : regex) (w : str) : Prop :=
  match r with
  | RCls c => exists x, w = [x] /\ cmatch c x = true
  | RLit l => w = l
  | RSeq a b => exists u v, w = u ++ v /\ lang a u /\ lang b v
  | RAlt a b => lang a w \/ lang b w
  | ROpt a => w = [] \/ lang a w
  | RStar c => all_in c w
  | RPlus c | RPlusLazy c => w <> [] /\ all_in c w
  | RGroup _ a => lang a w
  end.

(** The words of a pattern together with the groups that a match of the
    word captures, latest first. *)
Fixpoint langg (r : regex) (w : str) (g : groups) : Prop :=
  match r with
  | RSeq a b =>
      exists u v g1 g2,
        w = u ++ v /\ langg a u g1 /\ langg b v g2 /\ g = g2 ++ g1
  | RAlt a b => langg a w g \/ langg b w g
  | ROpt a => (w = [] /\ g = []) \/ langg a w g
  | RGroup i a => exists g', langg a w g' /\ g = (i, w) :: g'
  | RCls _ | RLit _ | RStar _ | RPlus _ | RPlusLazy _ => lang r w /\ g = []
  end.

(** The pattern has no capture group. *)
Fixpoint groupless (r : regex) : bool :=
  match r with
  | RGroup _ _ => false
  | RSeq a b | RAlt a b => groupless a && groupless b
  | ROpt a => groupless a
  | _ => true
  end.

(** The pattern has a match somewhere in the string. *)
Definition occurs (r : regex) (s : str) : Prop :=
  exists pre w post, s = pre ++ w ++ post /\ lang r w.

(** A string of decimal digits. *)
Definition digits (w : str) : Prop := all_in CDigit w.

(** The conditions whose fields have the shape the patterns of
    [parse_single_condition] give them. *)
Definition wf (c : Condition) : Prop :=
  match c with
  | Text _ | Alternatives _ => True
  | Timer op v => lang operator_re op /\ lang number_re v
  | Numeric _ op v => lang operator_re op /\ lang value_re v
  end.

(** The characters that [value.rstrip('%s')] strips. *)
Definition unit_char (c : N) : bool := has_char c (py "%s").

(** A pattern matches a fragment, in the sense of [re.match], when a word
    of the pattern starts the fragment. *)
Definition matches_at_start (r : regex) (s : str) : Prop :=
  exists w rest, s = w ++ rest /\ lang r w.

(** A submission of two lines without quotes: [buy] and [sell]. *)
Definition buy_or_sell : str := py "buy" ++ [10%N] ++ py "sell".

(** The text of a template with one branch of one line. *)
Definition entry_template : str :=
  py "{ЕСЛИ В ПОСТЕ 🟥}" ++ [10%N] ++ py "ENTRY: {Price}".

(** The two braces. *)
Definition lbrace : N := 123%N.
Definition rbrace : N := 125%N.

(** The token [{ph}] of a placeholder. *)
Definition token (ph : str) : str := lbrace :: ph ++ [rbrace].

(** A name that the placeholder pattern can capture whole. *)
Definition no_rbrace (ph : str) : Prop := all_in (CNot (CChar rbrace)) ph.

(** Iterating over a set gives each of its elements once. *)
Definition is_set_order (set_order : list str -> list str) : Prop :=
  forall l, Permutation (set_order l) l.

End Notions.
Import Notions.

Module PollNotions.

Local Open Scope string_scope.
Local Open Scope list_scope.
Local Open Scope Z_scope.

(** The kinds of calls. *)
Definition is_send (e : event) : Prop :=
  match e with Send _ _ _ => True | _ => False end.

Definition is_fetch (e : event) : Prop :=
  match e with Fetch _ => True | _ => False end.

(** The unseen posts of a batch, line 658. *)
Definition new_posts_of (data : ChannelData) (posts : list Post) : list Post :=
  filter (fun post => last_post_id data <? id post) posts.

(** The order of the sort of line 668. *)
Definition id_le (p q : Post) : Prop := id p <= id q.

(** The scenario of the specification: the filter [buy/sell], the
    watermark 100 and a batch with the ids 103, 99 and 101. *)
Definition demo_channel : ChannelData :=
  mkChannel (parse_filter (py "buy/sell")) 100 None.

Definition demo_posts : list Post :=
  [mkPost 103 (py "sell now") (py "https://t.me/c/103");
   mkPost 99 (py "no match") (py "https://t.me/c/99");
   mkPost 101 (py "buy now") (py "https://t.me/c/101")].

(** The entry of a channel after one pass of the loop. *)
Definition advance (fetch : str -> list Post) (channel : str)
    (data : ChannelData) : ChannelData :=
  match filter_of data with
  | [] => data
  | _ :: _ =>
      match new_posts_of data (fetch channel) with
      | [] => data
      | _ :: _ =>
          match max_post_id (fetch channel) with
          | Ok max_id => set_last_post_id data max_id
          | Raise => data
          end
      end
  end.

(** The same on an item of the dictionary of channels. *)
Definition advance_entry (fetch : str -> list Post)
    (entry : str * ChannelData) : str * ChannelData :=
  (fst entry, advance fetch (fst entry) (snd entry)).

(** A channel for which the loop has nothing to do: no filter, or no
    fetched post above the watermark. *)
Definition settled (fetch : str -> list Post) (entry : str * ChannelData)
    : Prop :=
  filter_of (snd entry) = [] \/
  new_posts_of (snd entry) (fetch (fst entry)) = [].

(** The post passes the filter of the channel under the flag of line 670. *)
Definition passes (data : ChannelData) (post : Post) : bool :=
  match evaluate_filter (text post) (filter_of data)
          (all_must_match_of (filter_of data)) with
  | Ok true => true
  | _ => false
  end.

(** The calls to the sink for one post that passes: the primary message,
    and when it is not delivered ([fst outcome = false]) the fallback
    message, delivered or not ([snd outcome]). *)
Definition attempt (set_order : list str -> list str) (channel : str)
    (data : ChannelData) (po : Post * (bool * bool)) : list event :=
  let (post, outcome) := po in
  if fst outcome then
    [Send (primary_message set_order channel data post) true true]
  else
    [Send (primary_message set_order channel data post) true false;
     Send (fallback_message channel post) false (snd outcome)].

(** One of the two attempts was delivered. *)
Definition delivered (outcome : bool * bool) : Prop :=
  fst outcome = true \/ snd outcome = true.

(** The claim on deliveries as it is worded: in a run of the loop every
    unseen post that passes the filter of its channel gets an attempt to
    deliver its primary message. *)
Definition every_passing_post_is_attempted (fetch : str -> list Post)
    (sink : trace -> str -> bool -> bool) (set_order : list str -> list str)
    (file : Channels) : Prop :=
  forall channel data post,
    In (channel, data) file ->
    In post (new_posts_of data (fetch channel)) ->
    passes data post = true ->
    exists delivered,
      In (Send (primary_message set_order channel data post) true delivered)
         (snd (poll_channels fetch sink set_order file)).

(** A sink that rejects every message with HTML markup and takes the
    others: each primary message fails and each fallback is delivered. *)
Definition plain_only_sink (tr : trace) (text : str) (html : bool) : bool :=
  negb html.

End PollNotions.
Import PollNotions.

(* ================================================================== *)
(** * Facts about strings *)
(* ================================================================== *)

Module StrFacts.

Lemma eqb_eq (a b : str) : eqb a b = true <-> a = b.
Proof.
  revert b; induction a as [|x a IH]; intros [|y b]; simpl; split;
    try congruence; try reflexivity.
  - intros H. apply andb_true_iff in H as [Hx Hr].
    apply N.eqb_eq in Hx. apply IH in Hr. congruence.
  - intros H. injection H as -> ->. rewrite N.eqb_refl. simpl.
    apply IH. reflexivity.
Qed.

Lemma eqb_refl (a : str) : eqb a a = true.
Proof. apply eqb_eq. reflexivity. Qed.

Lemma startswith_app (p s : str) : startswith p (p ++ s) = true.
Proof.
  induction p as [|x p IH]; simpl; [reflexivity|].
  rewrite N.eqb_refl. exact IH.
Qed.

Lemma startswith_inv (p s : str) :
  startswith p s = true -> s = p ++ skipn (length p) s.
Proof.
  revert s; induction p as [|x p IH]; intros s H; simpl in *.
  - reflexivity.
  - destruct s as [|y s]; [discriminate|].
    apply andb_true_iff in H as [Hx Hr]. apply N.eqb_eq in Hx. subst y.
    simpl. f_equal. apply IH. exact Hr.
Qed.

(** The empty string occurs in every string. *)
Lemma contains_nil (s : str) : contains [] s = true.
Proof. destruct s; reflexivity. Qed.

Lemma startswith_contains (sub s : str) :
  startswith sub s = true -> contains sub s = true.
Proof. intros H. destruct s; simpl; rewrite H; reflexivity. Qed.

Lemma contains_app (sub a b : str) : contains sub (a ++ sub ++ b) = true.
Proof.
  induction a as [|x a IH].
  - change ([] ++ sub ++ b) with (sub ++ b).
    apply startswith_contains, startswith_app.
  - simpl. rewrite IH. apply orb_true_r.
Qed.

Lemma contains_inv (sub s : str) :
  contains sub s = true -> exists a b, s = a ++ sub ++ b.
Proof.
  induction s as [|x s IH]; simpl; intros H.
  - rewrite orb_false_r in H. destruct sub; [|discriminate].
    exists [], []. reflexivity.
  - apply orb_true_iff in H as [H | H].
    + apply startswith_inv in H. exists [], (skipn (length sub) (x :: s)).
      exact H.
    + destruct (IH H) as (a & b & ->). exists (x :: a), b. reflexivity.
Qed.

Lemma has_char_In (c : N) (s : str) : has_char c s = true <-> In c s.
Proof.
  unfold has_char. rewrite existsb_exists. split.
  - intros (x & Hin & Hx). apply N.eqb_eq in Hx. subst. exact Hin.
  - intros H. exists c. split; [exact H | apply N.eqb_refl].
Qed.

Lemma split_nonempty (sep : N) (s : str) : split sep s <> [].
Proof.
  destruct s as [|x s]; simpl; [discriminate|].
  destruct (x =? sep)%N; [discriminate|].
  destruct (split sep s); discriminate.
Qed.

(** Splitting at a separator splits the two sides. *)
Lemma split_app (sep : N) (a b : str) :
  split sep (a ++ sep :: b) = split sep a ++ split sep b.
Proof.
  induction a as [|x a IH]; simpl.
  - rewrite N.eqb_refl. reflexivity.
  - destruct (x =? sep)%N.
    + rewrite IH. reflexivity.
    + rewrite IH. destruct (split sep a) eqn:E; [|reflexivity].
      exfalso. eapply split_nonempty; eauto.
Qed.

(** No piece of a split holds the separator. *)
Lemma split_no_sep (sep : N) (s : str) :
  Forall (fun w => ~ In sep w) (split sep s).
Proof.
  induction s as [|x s IH]; simpl.
  - constructor; [intros [] | constructor].
  - destruct (x =? sep)%N eqn:E.
    + constructor; [intros [] | exact IH].
    + destruct (split sep s) as [|w ws].
      * constructor; [|constructor]. intros [H | []].
        subst. rewrite N.eqb_refl in E. discriminate.
      * inversion IH; subst. constructor; [|assumption].
        intros [H | H]; [|contradiction].
        subst. rewrite N.eqb_refl in E. discriminate.
Qed.

(** Joining the pieces with the separator gives the string back. *)
Lemma join_split (sep : N) (s : str) : join [sep] (split sep s) = s.
Proof.
  induction s as [|x s IH]; simpl; [reflexivity|].
  destruct (x =? sep)%N eqn:E.
  - apply N.eqb_eq in E. subst x.
    destruct (split sep s) eqn:Es.
    + exfalso. eapply split_nonempty; eauto.
    + simpl in *. rewrite IH. reflexivity.
  - destruct (split sep s) as [|w ws] eqn:Es.
    + exfalso. eapply split_nonempty; eauto.
    + destruct ws; simpl in *; rewrite <- IH; reflexivity.
Qed.

End StrFacts.
Import StrFacts.

(* ================================================================== *)
(** * Facts about the matcher *)
(* ================================================================== *)

Module ReFacts.

Lemma langg_lang (r : regex) :
  forall w g, langg r w g -> lang r w.
Proof.
  induction r as [c | l | a IHa b IHb | a IHa b IHb | a IHa | c | c | c
                 | j a IHa]; simpl; intros w g H; try tauto.
  - destruct H as (u & v & g1 & g2 & -> & Ha & Hb & _).
    exists u, v. split; [reflexivity|].
    split; [eapply IHa | eapply IHb]; eassumption.
  - destruct H as [H | H]; [left; eapply IHa | right; eapply IHb];
      eassumption.
  - destruct H as [[-> _] | H]; [left; reflexivity | right; eapply IHa];
      eassumption.
  - destruct H as (g' & H & _). eapply IHa; eassumption.
Qed.

Lemma langg_groupless (r : regex) :
  groupless r = true -> forall w g, langg r w g <-> lang r w /\ g = [].
Proof.
  induction r as [c | l | a IHa b IHb | a IHa b IHb | a IHa | c | c | c
                 | j a IHa]; simpl; intros Hg w g; try tauto;
    try discriminate.
  - apply andb_true_iff in Hg as [Ha Hb]. split.
    + intros (u & v & g1 & g2 & -> & H1 & H2 & ->).
      apply (IHa Ha) in H1 as [H1 ->]. apply (IHb Hb) in H2 as [H2 ->].
      split; [|reflexivity]. exists u, v. auto.
    + intros [(u & v & -> & H1 & H2) ->]. exists u, v, [], [].
      rewrite (IHa Ha), (IHb Hb). auto.
  - apply andb_true_iff in Hg as [Ha Hb].
    rewrite (IHa Ha), (IHb Hb). tauto.
  - rewrite (IHa Hg). tauto.
Qed.

Lemma firstn_consumed (w s' : str) :
  firstn (length (w ++ s') - length s') (w ++ s') = w.
Proof.
  rewrite length_app.
  replace (length w + length s' - length s')%nat with (length w) by lia.
  rewrite firstn_app, Nat.sub_diag, firstn_all. simpl. apply app_nil_r.
Qed.

Section Soundness.
Variable A : Type.

Lemma star_greedy_sound (c : cclass) (s : str) (k : str -> option A) x :
  star_greedy c s k = Some x ->
  exists w s', s = w ++ s' /\ all_in c w /\ k s' = Some x.
Proof.
  induction s as [|y s IH]; simpl; intros H.
  - exists [], []. repeat split; [constructor | exact H].
  - destruct (cmatch c y) eqn:Ey.
    + destruct (star_greedy c s k) as [r|] eqn:E; simpl in H.
      * destruct (IH H) as (w & s' & -> & Hw & Hk).
        exists (y :: w), s'. repeat split; [constructor|]; assumption.
      * exists [], (y :: s). repeat split; [constructor | exact H].
    + exists [], (y :: s). repeat split; [constructor | exact H].
Qed.

Lemma star_lazy_sound (c : cclass) (s : str) (k : str -> option A) x :
  star_lazy c s k = Some x ->
  exists w s', s = w ++ s' /\ all_in c w /\ k s' = Some x.
Proof.
  induction s as [|y s IH]; simpl; intros H.
  - destruct (k []) eqn:E; simpl in H; [|discriminate].
    exists [], []. repeat split; [constructor | congruence].
  - destruct (k (y :: s)) eqn:E; simpl in H.
    + exists [], (y :: s). repeat split; [constructor | congruence].
    + destruct (cmatch c y) eqn:Ey; [|discriminate].
      destruct (IH H) as (w & s' & -> & Hw & Hk).
      exists (y :: w), s'. repeat split; [constructor|]; assumption.
Qed.

Lemma star_greedy_complete (c : cclass) (s : str) (k : str -> option A) :
  star_greedy c s k = None ->
  forall w s', s = w ++ s' -> all_in c w -> k s' = None.
Proof.
  induction s as [|y s IH]; simpl; intros H w s' Hs Hw.
  - symmetry in Hs. apply app_eq_nil in Hs as [-> ->]. exact H.
  - destruct w as [|z w]; simpl in Hs.
    + subst s'. destruct (cmatch c y); [|exact H].
      destruct (star_greedy c s k); [discriminate | exact H].
    + injection Hs as <- ->. inversion Hw; subst.
      rewrite H2 in H.
      destruct (star_greedy c (w ++ s') k) eqn:E; [discriminate|].
      eapply IH; eauto.
Qed.

Lemma star_lazy_complete (c : cclass) (s : str) (k : str -> option A) :
  star_lazy c s k = None ->
  forall w s', s = w ++ s' -> all_in c w -> k s' = None.
Proof.
  induction s as [|y s IH]; simpl; intros H w s' Hs Hw.
  - symmetry in Hs. apply app_eq_nil in Hs as [-> ->].
    destruct (k []); [discriminate | reflexivity].
  - destruct (k (y :: s)) eqn:E; [discriminate|]. simpl in H.
    destruct w as [|z w]; simpl in Hs.
    + subst s'. exact E.
    + injection Hs as <- ->. inversion Hw; subst.
      rewrite H2 in H. eapply IH; eauto.
Qed.

(** Whatever the matcher returns comes from a word of the pattern at the
    start of the string, with the groups of that match added. *)
Lemma rx_sound (r : regex) :
  forall s g (k : str -> groups -> option A) x,
    rx r s g k = Some x ->
    exists w s' added,
      s = w ++ s' /\ langg r w added /\ k s' (added ++ g) = Some x.
Proof.
  induction r as [c | l | a IHa b IHb | a IHa b IHb | a IHa | c | c | c
                 | j a IHa]; simpl; intros s g k x H.
  - destruct s as [|y s]; [discriminate|].
    destruct (cmatch c y) eqn:E; [|discriminate].
    exists [y], s, []. eauto 7.
  - destruct (startswith l s) eqn:E; [|discriminate].
    exists l, (skipn (length l) s), []. auto using startswith_inv.
  - apply IHa in H as (u & s1 & g1 & -> & Hu & H).
    apply IHb in H as (v & s2 & g2 & -> & Hv & H).
    exists (u ++ v), s2, (g2 ++ g1). rewrite <- !app_assoc.
    split; [reflexivity|]. split; [|exact H]. exists u, v, g1, g2. auto.
  - destruct (rx a s g k) eqn:Ea; simpl in H.
    + apply IHa in Ea as (w & s' & g' & -> & Hw & Hk).
      exists w, s', g'. split; [reflexivity|]. split; [left; exact Hw|].
      congruence.
    + apply IHb in H as (w & s' & g' & -> & Hw & Hk).
      exists w, s', g'. auto.
  - destruct (rx a s g k) eqn:Ea; simpl in H.
    + apply IHa in Ea as (w & s' & g' & -> & Hw & Hk).
      exists w, s', g'. split; [reflexivity|]. split; [right; exact Hw|].
      congruence.
    + exists [], s, []. auto.
  - apply star_greedy_sound in H as (w & s' & -> & Hw & Hk).
    exists w, s', []. auto.
  - destruct s as [|y s]; [discriminate|].
    destruct (cmatch c y) eqn:E; [|discriminate].
    apply star_greedy_sound in H as (w & s' & -> & Hw & Hk).
    exists (y :: w), s', []. split; [reflexivity|]. split; [|exact Hk].
    split; [|reflexivity]. split; [discriminate | constructor; assumption].
  - destruct s as [|y s]; [discriminate|].
    destruct (cmatch c y) eqn:E; [|discriminate].
    apply star_lazy_sound in H as (w & s' & -> & Hw & Hk).
    exists (y :: w), s', []. split; [reflexivity|]. split; [|exact Hk].
    split; [|reflexivity]. split; [discriminate | constructor; assumption].
  - apply IHa in H as (w & s' & g' & -> & Hw & Hk).
    rewrite firstn_consumed in Hk.
    exists w, s', ((j, w) :: g'). split; [reflexivity|]. split; [|exact Hk].
    exists g'. auto.
Qed.

(** When the matcher fails, the continuation fails after every word of
    the pattern at the start of the string. *)
Lemma rx_complete (r : regex) :
  forall s g (k : str -> groups -> option A),
    rx r s g k = None ->
    forall w s', s = w ++ s' -> lang r w -> exists g', k s' g' = None.
Proof.
  induction r as [c | l | a IHa b IHb | a IHa b IHb | a IHa | c | c | c
                 | j a IHa]; simpl; intros s g k H w s' Hs Hw.
  - destruct Hw as (y & -> & Hy). subst s. simpl in H. rewrite Hy in H.
    eauto.
  - subst. rewrite startswith_app in H.
    rewrite skipn_app, Nat.sub_diag, skipn_all in H. simpl in H. eauto.
  - destruct Hw as (u & v & -> & Hu & Hv). subst s.
    rewrite <- app_assoc in H.
    destruct (IHa _ _ _ H u (v ++ s') eq_refl Hu) as (g1 & H1).
    eapply IHb; eauto.
  - destruct (rx a s g k) eqn:Ea; [discriminate|]. simpl in H.
    destruct Hw as [Hw | Hw]; [eapply IHa | eapply IHb]; eauto.
  - destruct (rx a s g k) eqn:Ea; [discriminate|]. simpl in H.
    destruct Hw as [-> | Hw].
    + subst s. eauto.
    + eapply IHa; eauto.
  - exists g. exact (@star_greedy_complete c s _ H w s' Hs Hw).
  - destruct Hw as [Hne Hw]. destruct w as [|y w]; [congruence|].
    subst s. simpl in H. inversion Hw; subst. rewrite H2 in H.
    exists g. exact (@star_greedy_complete c _ _ H w s' eq_refl H3).
  - destruct Hw as [Hne Hw]. destruct w as [|y w]; [congruence|].
    subst s. simpl in H. inversion Hw; subst. rewrite H2 in H.
    exists g. exact (@star_lazy_complete c _ _ H w s' eq_refl H3).
  - destruct (IHa _ _ _ H w s' Hs Hw) as (g' & Hg). eauto.
Qed.
End Soundness.

Lemma re_match_sound (r : regex) (s : str) g rest :
  re_match r s = Some (g, rest) ->
  exists w, s = w ++ rest /\ langg r w g.
Proof.
  unfold re_match. intros H.
  apply rx_sound in H as (w & s' & added & -> & Hw & Hk).
  rewrite app_nil_r in Hk. injection Hk as <- <-. eauto.
Qed.

Lemma re_match_none (r : regex) (s : str) :
  re_match r s = None -> forall w s', s = w ++ s' -> ~ lang r w.
Proof.
  unfold re_match. intros H w s' Hs Hw.
  destruct (@rx_complete _ r s [] _ H w s' Hs Hw) as (g' & Hg). discriminate.
Qed.

(** [re.search] returns the match at the leftmost position that has one. *)
Lemma re_search_sound (r : regex) (s : str) g rest :
  re_search r s = Some (g, rest) ->
  exists pre w,
    s = pre ++ w ++ rest /\ langg r w g /\
    (forall pre' w' post',
        s = pre' ++ w' ++ post' -> lang r w' -> length pre <= length pre').
Proof.
  induction s as [|x s IH]; simpl.
  - destruct (re_match r []) as [[g0 rest0]|] eqn:E; [|discriminate].
    intros H. injection H as -> ->.
    apply re_match_sound in E as (w & Hs & Hw).
    exists [], w. split; [exact Hs|]. split; [exact Hw|]. intros. simpl. lia.
  - destruct (re_match r (x :: s)) as [[g0 rest0]|] eqn:E.
    + intros H. injection H as -> ->.
      apply re_match_sound in E as (w & Hs & Hw).
      exists [], w. split; [exact Hs|]. split; [exact Hw|].
      intros. simpl. lia.
    + intros H. destruct (IH H) as (pre & w & -> & Hw & Hl).
      exists (x :: pre), w. split; [reflexivity|]. split; [exact Hw|].
      intros pre' w' post' Hs Hw'. destruct pre' as [|y pre'].
      * exfalso. exact (@re_match_none _ _ E w' post' Hs Hw').
      * simpl in Hs. injection Hs as <- Hs. simpl.
        apply le_n_S. eapply Hl; eauto.
Qed.

(** [re.search] finds nothing exactly when the pattern occurs nowhere. *)
Lemma re_search_none (r : regex) (s : str) :
  re_search r s = None <-> ~ occurs r s.
Proof.
  split.
  - induction s as [|x s IH]; simpl; intros H (pre & w & post & Hs & Hw).
    + destruct (re_match r []) eqn:E; [discriminate|].
      destruct pre; [|discriminate]. simpl in Hs.
      exact (@re_match_none _ _ E w post Hs Hw).
    + destruct (re_match r (x :: s)) eqn:E; [discriminate|].
      destruct pre as [|y pre].
      * exact (@re_match_none _ _ E w post Hs Hw).
      * simpl in Hs. injection Hs as <- Hs.
        apply (IH H). exists pre, w, post. auto.
  - intros Hn. destruct (re_search r s) as [[g rest]|] eqn:E; [|reflexivity].
    exfalso. apply Hn.
    apply re_search_sound in E as (pre & w & Hs & Hw & _).
    exists pre, w, rest. eauto using langg_lang.
Qed.

Lemma re_search_occurs (r : regex) (s : str) m :
  re_search r s = Some m -> occurs r s.
Proof.
  destruct m as [g rest]. intros E.
  apply re_search_sound in E as (pre & w & Hs & Hw & _).
  exists pre, w, rest. eauto using langg_lang.
Qed.

End ReFacts.
Import ReFacts.

(* ================================================================== *)
(** * Facts about floats and the literals the patterns capture *)
(* ================================================================== *)

Module FloatFacts.

Import Filter.

(** [abs] forgets the sign the literal was read with. *)
Lemma fabs_round (neg : bool) (nd : Z * Z) :
  fabs (round_to neg nd) = fabs (round_to false nd).
Proof.
  unfold round_to, round_binary64.
  destruct (fst nd =? 0)%Z; [reflexivity|].
  match goal with |- context [if ?c then Inf _ else _] => destruct c end;
    reflexivity.
Qed.

(** The float of a literal with a minus sign has the absolute value of the
    float of the literal without it. *)
Lemma fabs_minus (w : str) :
  hd_error w <> Some 45%N ->
  option_map fabs (py_float (45%N :: w)) = option_map fabs (py_float w).
Proof.
  intros Hh. unfold py_float. rewrite N.eqb_refl.
  destruct w as [|x w].
  - reflexivity.
  - destruct (x =? 45)%N eqn:E.
    + apply N.eqb_eq in E. subst. exfalso. apply Hh. reflexivity.
    + destruct (parse_decimal (x :: w)); simpl; [|reflexivity].
      f_equal. apply fabs_round.
Qed.

(** Some floats, as CPython gives them: a fraction that is not binary,
    a tie (rounded to the even mantissa), the overflow to infinity, the
    smallest subnormal number, and digits of another script. *)
Example float_of_tenth :
  py_float (py "0.1") = Some (Fin false 7205759403792794 (-56)).
Proof. vm_compute. reflexivity. Qed.

Example float_of_tie :
  py_float (py "9007199254740993") = Some (Fin false 4503599627370496 1).
Proof. vm_compute. reflexivity. Qed.

Example float_of_huge :
  py_float (py "1" ++ repeat 48%N 309) = Some (Inf false).
Proof. vm_compute. reflexivity. Qed.

Example float_of_tiny :
  py_float (py "0." ++ repeat 48%N 323 ++ py "5") = Some (Fin false 1 (-1074)).
Proof. vm_compute. reflexivity. Qed.

Example float_of_arabic_digits :
  py_float [1635; 46; 1637]%N = py_float (py "3.5").
Proof. vm_compute. reflexivity. Qed.

Lemma take_digits_app (ds rest : str) :
  digits ds ->
  exists vs, length vs = length ds /\
             take_digits (ds ++ rest) =
             (vs ++ fst (take_digits rest), snd (take_digits rest)).
Proof.
  induction 1 as [|x ds Hx Hds (vs & Hl & IH)]; simpl.
  - exists []. split; [reflexivity|]. destruct (take_digits rest); reflexivity.
  - simpl in Hx. unfold isdigit in Hx.
    destruct (digit_value x) as [v|]; [|discriminate].
    rewrite IH. exists (v :: vs). simpl. split; [congruence | reflexivity].
Qed.

Lemma take_digits_all (ds : str) :
  digits ds ->
  exists vs, length vs = length ds /\ take_digits ds = (vs, []).
Proof.
  intros H. destruct (take_digits_app ds [] H) as (vs & Hl & E).
  rewrite app_nil_r in E. simpl in E. rewrite app_nil_r in E. eauto.
Qed.

(** The words of [\d+\.?\d*]. *)
Lemma number_inv (w : str) :
  lang number_re w ->
  exists u t, u <> [] /\ digits u /\ digits t /\
              (w = u ++ t \/ w = u ++ 46%N :: t).
Proof.
  simpl. intros (u & v & -> & [Hne Hu] & d & t & -> & Hd & Ht).
  exists u, t. repeat split; auto.
  destruct Hd as [-> | (x & -> & Hx)]; [left; reflexivity|].
  apply N.eqb_eq in Hx. subst. right. reflexivity.
Qed.

Lemma parse_decimal_number (w : str) :
  lang number_re w -> exists nd, parse_decimal w = Some nd.
Proof.
  intros H. apply number_inv in H as (u & t & Hne & Hu & Ht & [-> | ->]).
  - assert (Hd : digits (u ++ t)) by (apply Forall_app; auto).
    destruct (take_digits_all _ Hd) as (vs & Hl & E).
    unfold parse_decimal. rewrite E.
    destruct vs; [|eauto].
    rewrite length_app in Hl. destruct u; [congruence | discriminate].
  - destruct (take_digits_app u (46%N :: t) Hu) as (vs & Hl & E).
    change (take_digits (46%N :: t)) with (@nil N, 46%N :: t) in E.
    simpl in E. rewrite app_nil_r in E.
    destruct (take_digits_all _ Ht) as (ws & _ & Et).
    unfold parse_decimal. rewrite E.
    destruct vs; [destruct u; [congruence | discriminate]|].
    rewrite N.eqb_refl, Et. eauto.
Qed.

Lemma digit_head (x : N) (w : str) : digits (x :: w) -> (x =? 45)%N = false.
Proof.
  intros H. inversion H; subst. simpl in H2.
  destruct (x =? 45)%N eqn:E; [|reflexivity].
  apply N.eqb_eq in E. subst. discriminate.
Qed.

Lemma number_head (w : str) :
  lang number_re w -> exists x w', w = x :: w' /\ (x =? 45)%N = false.
Proof.
  intros H. apply number_inv in H as (u & t & Hne & Hu & Ht & Hw).
  destruct u as [|x u]; [congruence|].
  exists x. destruct Hw as [-> | ->]; eexists; (split; [reflexivity|]);
    eapply digit_head; eauto.
Qed.

(** [float] reads every word of [\d+\.?\d*]... *)
Lemma py_float_number (w : str) :
  lang number_re w -> exists f, py_float w = Some f.
Proof.
  intros H. destruct (number_head _ H) as (x & w' & -> & Hx).
  destruct (parse_decimal_number _ H) as (nd & E).
  unfold py_float. rewrite Hx, E. simpl. eauto.
Qed.

(** ...and every word of [[-]?\d+\.?\d*]. *)
Lemma py_float_signed (w : str) :
  lang signed_re w -> exists f, py_float w = Some f.
Proof.
  simpl. intros (u & v & -> & Hu & Hv).
  destruct Hu as [-> | (x & -> & Hx)].
  - apply py_float_number. exact Hv.
  - apply N.eqb_eq in Hx. subst x.
    destruct (parse_decimal_number _ Hv) as (nd & E).
    change ([chr "-"] ++ v) with (45%N :: v).
    unfold py_float. rewrite N.eqb_refl, E. simpl. eauto.
Qed.

(** The words of [[><]=?] are the four operators. *)
Lemma operator_inv (op : str) :
  lang operator_re op ->
  op = py ">" \/ op = py "<" \/ op = py ">=" \/ op = py "<=".
Proof.
  simpl. intros (u & v & -> & (x & -> & Hx) & Hv).
  apply orb_true_iff in Hx as [Hx | Hx]; apply N.eqb_eq in Hx; subst x;
    (destruct Hv as [-> | (y & -> & Hy)];
     [| apply N.eqb_eq in Hy; subst y]); auto.
Qed.

Lemma compare_with_total (op : str) (a b : pyfloat) :
  lang operator_re op -> exists r, compare_with op a b = Ok r.
Proof.
  intros H. apply operator_inv in H as [-> | [-> | [-> | ->]]];
    unfold compare_with; simpl; eauto.
Qed.

(** ** Integers as floats *)

Local Open Scope Z_scope.

Lemma pow2_nonneg (e : Z) : 0 <= e -> pow2 e = 2 ^ e.
Proof. intros H. unfold pow2. rewrite Z.max_r by lia. reflexivity. Qed.

Lemma pow2_nonpos (e : Z) : e <= 0 -> pow2 e = 1.
Proof.
  intros H. unfold pow2. rewrite Z.max_l by lia. reflexivity.
Qed.

(** An integer below [2^53] is a float: it is rounded to itself, with a
    mantissa of 53 bits. *)
Lemma round_exact_integer (neg : bool) (n : Z) :
  0 < n < 2 ^ 53 ->
  round_binary64 neg n 1 =
  Fin neg (n * 2 ^ (52 - Z.log2 n)) (Z.log2 n - 52).
Proof.
  intros [Hpos Hlt].
  assert (Hl : 0 <= Z.log2 n < 53).
  { split; [apply Z.log2_nonneg|]. apply Z.log2_lt_pow2; lia. }
  assert (Hm : n * 2 ^ (52 - Z.log2 n) < 2 ^ 53).
  { destruct (Z.log2_spec n Hpos) as [_ Hup].
    replace (2 ^ 53) with (2 ^ Z.succ (Z.log2 n) * 2 ^ (52 - Z.log2 n)).
    - apply Z.mul_lt_mono_pos_r; [apply Z.pow_pos_nonneg; lia | exact Hup].
    - rewrite <- Z.pow_add_r by lia. f_equal. lia. }
  unfold round_binary64.
  destruct (Z.eqb_spec n 0) as [->|_]; [lia|].
  change (Z.log2 1) with 0. cbv zeta.
  remember (Z.log2 n) as l eqn:El.
  assert (E0 : n * pow2 (- (l - 0 - 54)) / (1 * pow2 (l - 0 - 54)) =
               n * 2 ^ (54 - l)).
  { rewrite pow2_nonneg, pow2_nonpos by lia.
    rewrite Z.mul_1_l, Z.div_1_r. f_equal. f_equal. lia. }
  rewrite E0.
  assert (E1 : Z.log2 (n * 2 ^ (54 - l)) = 54).
  { rewrite Z.log2_mul_pow2 by lia. lia. }
  rewrite E1.
  replace (Z.max (l - 0 - 54 + 54 - 52) (-1074)) with (l - 52) by lia.
  rewrite (pow2_nonneg (- (l - 52))), (pow2_nonpos (l - 52)) by lia.
  replace (- (l - 52)) with (52 - l) by lia.
  rewrite Z.mul_1_l, Z.div_1_r, Z.mod_1_r, Z.mul_1_r.
  change (1 <? 2 * 0) with false. change (2 * 0 =? 1) with false.
  cbn [orb andb].
  destruct (Z.leb_spec (pow2 1024) (n * 2 ^ (52 - l))) as [H|_];
    [|reflexivity].
  exfalso. assert (2 ^ 53 < pow2 1024) by (vm_compute; reflexivity). lia.
Qed.

(** The order of two such floats is the order of the integers. *)
Lemma fcompare_integers (neg1 neg2 : bool) (a b : Z) :
  0 < a < 2 ^ 53 -> 0 < b < 2 ^ 53 ->
  fcompare (round_binary64 neg1 a 1) (round_binary64 neg2 b 1) =
  (signed neg1 a ?= signed neg2 b).
Proof.
  intros Ha Hb. rewrite !round_exact_integer by assumption.
  assert (Hla : 0 <= Z.log2 a < 53).
  { split; [apply Z.log2_nonneg|]. apply Z.log2_lt_pow2; lia. }
  assert (Hlb : 0 <= Z.log2 b < 53).
  { split; [apply Z.log2_nonneg|]. apply Z.log2_lt_pow2; lia. }
  unfold fcompare.
  remember (Z.min (Z.log2 a - 52) (Z.log2 b - 52)) as e eqn:Ee.
  rewrite !pow2_nonneg by lia.
  assert (Ea : signed neg1 (a * 2 ^ (52 - Z.log2 a)) * 2 ^ (Z.log2 a - 52 - e)
               = signed neg1 a * 2 ^ (- e)).
  { replace (- e) with ((52 - Z.log2 a) + (Z.log2 a - 52 - e)) by lia.
    rewrite Z.pow_add_r by lia. destruct neg1; simpl; ring. }
  assert (Eb : signed neg2 (b * 2 ^ (52 - Z.log2 b)) * 2 ^ (Z.log2 b - 52 - e)
               = signed neg2 b * 2 ^ (- e)).
  { replace (- e) with ((52 - Z.log2 b) + (Z.log2 b - 52 - e)) by lia.
    rewrite Z.pow_add_r by lia. destruct neg2; simpl; ring. }
  rewrite Ea, Eb.
  assert (Hp : 0 < 2 ^ (- e)) by (apply Z.pow_pos_nonneg; lia).
  destruct (Z.compare_spec (signed neg1 a) (signed neg2 b)) as [E | E | E].
  - rewrite E. apply Z.compare_refl.
  - apply Z.compare_lt_iff. nia.
  - apply Z.compare_gt_iff. nia.
Qed.

End FloatFacts.
Import FloatFacts.

(* ================================================================== *)
(** * Facts about the filter language *)
(* ================================================================== *)

Module FilterFacts.

Import Filter.

Ltac break :=
  repeat match goal with
         | H : exists _, _ |- _ => destruct H
         | H : _ /\ _ |- _ => destruct H
         end.

Ltac plain r :=
  match goal with
  | H : langg r _ _ |- _ =>
      apply (proj1 (langg_groupless r eq_refl _ _)) in H; destruct H
  end.

(** The matches of the timer pattern of the parser and their groups. *)
Lemma timer_filter_inv (w : str) (g : groups) :
  langg timer_filter_re w g ->
  exists op v ws,
    w = stopwatch ++ py "{" ++ op ++ v ++ py "}" ++ ws ++ py "min" /\
    lang operator_re op /\ lang number_re v /\ all_in CSpace ws /\
    g = [(2%nat, v); (1%nat, op)].
Proof.
  unfold timer_filter_re, lit. cbn [langg lang]. intros H. break.
  plain operator_re. plain number_re. subst.
  eexists _, _, _. repeat (split; [eassumption || reflexivity|]). reflexivity.
Qed.

(** The matches of the numeric pattern of the parser and their groups. *)
Lemma numeric_filter_inv (w : str) (g : groups) :
  langg numeric_filter_re w g ->
  exists key op v,
    w = key ++ py "{" ++ op ++ v ++ py "}" /\
    key <> [] /\ all_in CAny key /\
    lang operator_re op /\ lang value_re v /\
    g = [(3%nat, v); (2%nat, op); (1%nat, key)].
Proof.
  unfold numeric_filter_re, lit. cbn [langg lang]. intros H. break.
  plain operator_re. plain value_re. subst.
  eexists _, _, _. repeat (split; [eassumption || reflexivity|]). reflexivity.
Qed.

(** The matches of the timer pattern in a post and their group. *)
Lemma timer_post_inv (w : str) (g : groups) :
  langg timer_post_re w g ->
  exists ws num ws',
    w = stopwatch ++ ws ++ num ++ ws' ++ py "min" /\
    all_in CSpace ws /\ lang number_re num /\ all_in CSpace ws' /\
    g = [(1%nat, num)].
Proof.
  unfold timer_post_re, lit. cbn [langg lang]. intros H. break.
  plain number_re. subst.
  eexists _, _, _. repeat (split; [eassumption || reflexivity|]). reflexivity.
Qed.

(** The matches of the numeric pattern in a post and their groups: the
    number, and the unit when there is one. *)
Lemma numeric_post_inv (key w : str) (g : groups) :
  langg (numeric_post_re key) w g ->
  exists sep num ws unit,
    w = key ++ sep ++ num ++ ws ++ unit /\
    all_in (COr CSpace (one ":")) sep /\ lang signed_re num /\
    all_in CSpace ws /\
    (unit = [] /\ g = [(1%nat, num)] \/
     (unit = py "%" \/ unit = py "s") /\ g = [(2%nat, unit); (1%nat, num)]).
Proof.
  unfold numeric_post_re, lit. cbn [langg lang]. intros H. break.
  plain signed_re. subst.
  match goal with
  | H : _ \/ _ |- _ => destruct H as [[-> ->] | (g' & [[-> ->] | [-> ->]] & ->)]
  end; eexists _, _, _, _;
    (split; [reflexivity|]); repeat (split; [eassumption|]); auto.
Qed.

(** Every parsed condition is well formed. *)
Lemma parse_wf (c : str) : wf (parse_single_condition c).
Proof.
  unfold parse_single_condition.
  destruct (has_char (chr "/") c); [exact I|].
  destruct (re_match timer_filter_re c) as [[g rest]|] eqn:Et.
  - apply re_match_sound in Et as (w & _ & Hw).
    apply timer_filter_inv in Hw as (op & v & ws & _ & Hop & Hv & _ & ->).
    split; assumption.
  - destruct (re_match numeric_filter_re c) as [[g rest]|] eqn:En; [|exact I].
    apply re_match_sound in En as (w & _ & Hw).
    apply numeric_filter_inv in Hw
      as (key & op & v & _ & _ & _ & Hop & Hv & ->).
    split; assumption.
Qed.

Lemma parse_filter_wf (filter_text : str) : Forall wf (parse_filter filter_text).
Proof.
  unfold parse_filter. destruct (has_char 34%N filter_text);
    apply Forall_forall; intros c Hc; apply in_map_iff in Hc as (x & <- & _);
    apply parse_wf.
Qed.

Lemma number_no_unit (w : str) :
  lang number_re w -> w <> [] /\ Forall (fun c => unit_char c = false) w.
Proof.
  intros H. apply number_inv in H as (u & t & Hne & Hu & Ht & Hw).
  assert (Hd : forall l, digits l -> Forall (fun c => unit_char c = false) l).
  { intros l Hl. eapply Forall_impl; [|exact Hl]. simpl. intros c Hc.
    unfold unit_char. simpl.
    destruct (c =? 37)%N eqn:E1.
    { apply N.eqb_eq in E1. subst. discriminate. }
    destruct (c =? 115)%N eqn:E2.
    { apply N.eqb_eq in E2. subst. discriminate. }
    reflexivity. }
  destruct Hw as [-> | ->]; (split; [destruct u; [congruence | discriminate]|]).
  - apply Forall_app. auto.
  - apply Forall_app. split; [auto|]. constructor; [reflexivity | auto].
Qed.

Lemma lstrip_by_keep (p : N -> bool) (x : N) (l : str) :
  p x = false -> lstrip_by p (x :: l) = x :: l.
Proof. intros H. simpl. rewrite H. reflexivity. Qed.

(** Stripping the unit from a value leaves its number. *)
Lemma rstrip_value (v : str) :
  lang value_re v ->
  exists num, lang number_re num /\ rstrip (py "%s") v = num.
Proof.
  intros (num & u & -> & Hn & Hu). exists num. split; [exact Hn|].
  destruct (number_no_unit _ Hn) as [Hne Hall].
  assert (Hk : lstrip_by unit_char (rev num) = rev num).
  { apply Forall_rev in Hall. destruct (rev num) as [|x l] eqn:E.
    - reflexivity.
    - inversion Hall; subst. apply lstrip_by_keep. assumption. }
  unfold rstrip, rstrip_by. fold unit_char.
  destruct Hu as [-> | (x & -> & Hx)].
  - rewrite app_nil_r, Hk. apply rev_involutive.
  - rewrite rev_app_distr. simpl.
    replace (unit_char x) with true.
    + rewrite Hk. apply rev_involutive.
    + symmetry. unfold unit_char. simpl in *.
      rewrite orb_false_r. exact Hx.
Qed.

Lemma expected_unit_total (v : str) :
  lang value_re v -> exists u, expected_unit_of v = Ok u.
Proof.
  intros (num & u & -> & Hn & Hu). destruct (number_no_unit _ Hn) as [Hne _].
  unfold expected_unit_of. destruct (rev (num ++ u)) eqn:E; [|eauto].
  apply (f_equal (@rev N)) in E. rewrite rev_involutive in E. simpl in E.
  apply app_eq_nil in E as [-> _]. congruence.
Qed.

(** What [re.search] of the numeric pattern finds in a post: the leftmost
    place where the key is followed by separators, a signed number, spaces
    and possibly a unit; group 1 is the number and group 2 the unit. *)
Lemma numeric_search_inv (key post_text : str) g rest :
  re_search (numeric_post_re key) post_text = Some (g, rest) ->
  exists pre sep num ws unit,
    post_text = pre ++ (key ++ sep ++ num ++ ws ++ unit) ++ rest /\
    all_in (COr CSpace (one ":")) sep /\ lang signed_re num /\
    all_in CSpace ws /\ (unit = [] \/ unit = py "%" \/ unit = py "s") /\
    group_of g 1 = num /\ group_of g 2 = unit /\
    (forall pre' w' post',
        post_text = pre' ++ w' ++ post' -> lang (numeric_post_re key) w' ->
        length pre <= length pre').
Proof.
  intros E. apply re_search_sound in E as (pre & w & -> & Hw & Hleft).
  apply numeric_post_inv in Hw
    as (sep & num & ws & unit & -> & Hsep & Hnum & Hws & [[-> ->] | [Hu ->]]);
    exists pre, sep, num, ws; eexists; repeat (split; [eassumption|]);
    (split; [reflexivity|]); repeat (split; [eassumption|]); auto.
Qed.

(** What [re.search] of the timer pattern finds in a post: the leftmost
    place where the stopwatch is followed by spaces, a number, spaces and
    [min]; group 1 is the number. *)
Lemma timer_search_inv (post_text : str) g rest :
  re_search timer_post_re post_text = Some (g, rest) ->
  exists pre ws num ws',
    post_text = pre ++ (stopwatch ++ ws ++ num ++ ws' ++ py "min") ++ rest /\
    all_in CSpace ws /\ lang number_re num /\ all_in CSpace ws' /\
    group_of g 1 = num /\
    (forall pre' w' post',
        post_text = pre' ++ w' ++ post' -> lang timer_post_re w' ->
        length pre <= length pre').
Proof.
  intros E. apply re_search_sound in E as (pre & w & -> & Hw & Hleft).
  apply timer_post_inv in Hw as (ws & num & ws' & -> & H1 & Hnum & H2 & ->).
  exists pre, ws, num, ws'. repeat (split; [eassumption || reflexivity|]).
  exact Hleft.
Qed.

(** A well-formed condition is checked without an exception. *)
Lemma check_total (post_text : str) (c : Condition) :
  wf c -> exists b, check_condition post_text c = Ok b.
Proof.
  destruct c as [v | vs | op v | key op v]; simpl; intros Hwf; eauto.
  - destruct Hwf as [Hop Hv].
    destruct (re_search timer_post_re post_text) as [[g rest]|] eqn:E; eauto.
    apply timer_search_inv in E as (_ & _ & num & _ & _ & _ & E & _ & -> & _).
    destruct (py_float_number _ E) as (f1 & ->).
    destruct (py_float_number _ Hv) as (f2 & ->). simpl.
    apply compare_with_total. exact Hop.
  - destruct Hwf as [Hop Hv].
    destruct (re_search (numeric_post_re key) post_text) as [[g rest]|] eqn:E;
      eauto.
    apply numeric_search_inv in E
      as (_ & _ & n1 & _ & unit & _ & _ & H1 & _ & _ & -> & -> & _).
    destruct (py_float_signed _ H1) as (f1 & ->).
    destruct (expected_unit_total _ Hv) as (u & ->).
    destruct (rstrip_value _ Hv) as (num & Hnum & ->).
    destruct (py_float_number _ Hnum) as (f2 & ->). simpl.
    destruct (units_agree unit u); eauto.
    apply compare_with_total. exact Hop.
Qed.

Lemma map_check_total (post_text : str) (cs : list Condition) :
  Forall wf cs -> exists bs, map_exc (check_condition post_text) cs = Ok bs.
Proof.
  induction 1 as [|c cs Hc Hcs (bs & IH)]; simpl; eauto.
  destruct (@check_total post_text c Hc) as (b & ->). simpl.
  rewrite IH. simpl. eauto.
Qed.

Lemma map_exc_In (A B : Type) (f : A -> exc B) (l : list A) (bs : list B)
    (a : A) :
  map_exc f l = Ok bs -> In a l -> exists b, f a = Ok b /\ In b bs.
Proof.
  revert bs. induction l as [|x l IH]; intros bs E Hin; [destruct Hin|].
  simpl in E. destruct (f x) as [b|] eqn:Ex; [|discriminate]. simpl in E.
  destruct (map_exc f l) as [bs'|] eqn:El; [|discriminate]. simpl in E.
  injection E as <-. destruct Hin as [<- | Hin].
  - exists b. split; [exact Ex | left; reflexivity].
  - destruct (IH bs' eq_refl Hin) as (b' & Eb & Hb).
    exists b'. split; [exact Eb | right; exact Hb].
Qed.

(** Under the composition by [any], one condition that holds is enough. *)
Lemma evaluate_any (post_text : str) (cs : list Condition) (c : Condition) :
  Forall wf cs -> In c cs -> check_condition post_text c = Ok true ->
  evaluate_filter post_text cs false = Ok true.
Proof.
  intros Hwf Hin Hc. unfold evaluate_filter.
  destruct cs as [|c0 cs0] eqn:E; [destruct Hin|]. rewrite <- E in *.
  destruct (map_check_total post_text cs Hwf) as (bs & Ebs).
  rewrite Ebs. simpl. f_equal.
  destruct (map_exc_In _ _ _ _ _ c Ebs Hin) as (b & Eb & Hb).
  rewrite Hc in Eb. injection Eb as <-.
  apply existsb_exists. exists true. auto.
Qed.

(** A well-formed filter is evaluated without an exception. *)
Lemma evaluate_total (post_text : str) (cs : list Condition) (flag : bool) :
  Forall wf cs -> exists b, evaluate_filter post_text cs flag = Ok b.
Proof.
  intros H. unfold evaluate_filter. destruct cs as [|c cs]; eauto.
  destruct (@map_check_total post_text _ H) as (bs & ->). simpl. eauto.
Qed.

End FilterFacts.
Import FilterFacts.

(* ================================================================== *)
(** * Properties of the filter language *)
(* ================================================================== *)

Local Open Scope string_scope.
Local Open Scope list_scope.

(** A number captured with a minus sign in front is a number: the sign is
    the optional part of the pattern. *)
Lemma signed_minus_inv (w : str) :
  lang signed_re (45%N :: w) -> lang number_re w.
Proof.
  intros (u & v & E & Hu & Hv). destruct Hu as [-> | (x & -> & Hx)].
  - simpl in E. subst v. destruct (number_head _ Hv) as (x & w' & E & Hx).
    injection E as <- _. discriminate.
  - simpl in E. injection E as _ <-. exact Hv.
Qed.

(** C3.  A numeric condition on a post in which its pattern occurs: the
    leftmost occurrence is the key, separators, a signed number, spaces and
    possibly a unit, and when the units agree the answer is the comparison
    of the absolute value of the float of that number with the float of the
    threshold.  The sign is discarded: two posts in which the pattern finds
    the same number with the same unit, one with a minus sign and one
    without, get the same answer.  In particular the post [Spread: -15%]
    passes the filter [Spread{>10%}] and fails the filter [Spread{>20%}],
    exactly as the post [Spread: 15%] does. *)
Theorem numeric_uses_absolute_value :
  (forall key op value post,
      occurs (numeric_post_re key) post ->
      wf (Numeric key op value) ->
      exists pre sep num ws unit rest x target expected,
        post = pre ++ (key ++ sep ++ num ++ ws ++ unit) ++ rest /\
        lang signed_re num /\
        (forall pre' w' post',
            post = pre' ++ w' ++ post' -> lang (numeric_post_re key) w' ->
            length pre <= length pre') /\
        py_float num = Some x /\
        py_float (rstrip (py "%s") value) = Some target /\
        expected_unit_of value = Ok expected /\
        check_condition post (Numeric key op value) =
        if units_agree unit expected
        then compare_with op (fabs x) target
        else Ok false) /\
  (forall key op value post1 post2 g1 rest1 g2 rest2,
      re_search (numeric_post_re key) post1 = Some (g1, rest1) ->
      re_search (numeric_post_re key) post2 = Some (g2, rest2) ->
      group_of g1 1 = 45%N :: group_of g2 1 ->
      group_of g1 2 = group_of g2 2 ->
      check_condition post1 (Numeric key op value) =
      check_condition post2 (Numeric key op value)) /\
  parse_single_condition (py "Spread{>10%}") =
    Numeric (py "Spread") (py ">") (py "10%") /\
  check_condition (py "Spread: -15%")
    (parse_single_condition (py "Spread{>10%}")) = Ok true /\
  check_condition (py "Spread: -15%")
    (parse_single_condition (py "Spread{>20%}")) = Ok false /\
  check_condition (py "Spread: 15%")
    (parse_single_condition (py "Spread{>10%}")) = Ok true /\
  check_condition (py "Spread: 15%")
    (parse_single_condition (py "Spread{>20%}")) = Ok false.
Proof.
  split; [|split; [|repeat split; vm_compute; reflexivity]].
  - intros key op value post Hocc [Hop Hv].
    destruct (re_search (numeric_post_re key) post) as [[g rest]|] eqn:E.
    + simpl. rewrite E.
      apply numeric_search_inv in E
        as (pre & sep & num & ws & unit & Hpost & _ & Hnum & _ & _ & E1 & E2
            & Hleft).
      rewrite E1, E2.
      destruct (py_float_signed _ Hnum) as (x & Ex).
      destruct (expected_unit_total _ Hv) as (expected & Ee).
      destruct (rstrip_value _ Hv) as (tnum & Htnum & Er).
      destruct (py_float_number _ Htnum) as (target & Et).
      exists pre, sep, num, ws, unit, rest, x, target, expected.
      rewrite Er, Ex, Ee, Et. simpl. repeat (split; [assumption|]).
      split; [reflexivity|]. split; [reflexivity|]. split; reflexivity.
    + apply re_search_none in E. contradiction.
  - intros key op value post1 post2 g1 rest1 g2 rest2 E1 E2 Hnum Hunit.
    simpl. rewrite E1, E2, Hnum, Hunit.
    apply numeric_search_inv in E1
      as (_ & _ & n1 & _ & _ & _ & _ & H1 & _ & _ & En1 & _).
    rewrite En1 in Hnum. rewrite Hnum in H1. apply signed_minus_inv in H1.
    destruct (number_head _ H1) as (x & w' & Ew & Hx).
    assert (Hf : option_map fabs (py_float (45%N :: group_of g2 1)) =
                 option_map fabs (py_float (group_of g2 1))).
    { apply fabs_minus. rewrite Ew. simpl. intros E. injection E as ->.
      discriminate. }
    destruct (py_float (45%N :: group_of g2 1)) as [f1|];
      destruct (py_float (group_of g2 1)) as [f2|]; simpl in *;
      try discriminate; try reflexivity.
    injection Hf as ->. reflexivity.
Qed.

Lemma numeric_uses_absolute_value_witness :
  (exists pre sep num ws unit rest x target expected,
      py "Spread: -15%" = pre ++ (py "Spread" ++ sep ++ num ++ ws ++ unit) ++ rest /\
      lang signed_re num /\
      (forall pre' w' post',
          py "Spread: -15%" = pre' ++ w' ++ post' ->
          lang (numeric_post_re (py "Spread")) w' ->
          length pre <= length pre') /\
      py_float num = Some x /\
      py_float (rstrip (py "%s") (py "10%")) = Some target /\
      expected_unit_of (py "10%") = Ok expected /\
      check_condition (py "Spread: -15%")
        (Numeric (py "Spread") (py ">") (py "10%")) =
      if units_agree unit expected
      then compare_with (py ">") (fabs x) target
      else Ok false) /\
  check_condition (py "Spread: -15%") (Numeric (py "Spread") (py ">") (py "10%")) =
  check_condition (py "Spread: 15%") (Numeric (py "Spread") (py ">") (py "10%")).
Proof.
  split.
  - apply (proj1 numeric_uses_absolute_value).
    + eapply re_search_occurs. vm_compute. reflexivity.
    + exact (parse_wf (py "Spread{>10%}")).
  - refine (proj1 (proj2 numeric_uses_absolute_value)
              (py "Spread") (py ">") (py "10%")
              (py "Spread: -15%") (py "Spread: 15%")
              [(2%nat, py "%"); (1%nat, py "-15")] []
              [(2%nat, py "%"); (1%nat, py "15")] [] _ _ _ _);
      vm_compute; reflexivity.
Defined.

(** The rule of the claim holds for a condition that carries a unit: when
    the unit found in the post is another one, or none, the answer is
    [false]. *)
Lemma unit_mismatch_fails (key op value post : str) g rest (u : N) :
  re_search (numeric_post_re key) post = Some (g, rest) ->
  expected_unit_of value = Ok (Some [u]) ->
  group_of g 2 <> [u] ->
  wf (Numeric key op value) ->
  check_condition post (Numeric key op value) = Ok false.
Proof.
  intros E Hu Hne [Hop Hv]. simpl. rewrite E, Hu.
  apply numeric_search_inv in E
    as (_ & _ & n1 & _ & unit & _ & _ & H1 & _ & _ & En & Eu & _).
  rewrite En.
  destruct (py_float_signed _ H1) as (f1 & ->).
  destruct (rstrip_value _ Hv) as (num & Hnum & ->).
  destruct (py_float_number _ Hnum) as (f2 & ->). simpl.
  destruct (eqb (group_of g 2) [u]) eqn:E'; [|reflexivity].
  apply eqb_eq in E'. contradiction.
Qed.

(** C4.  What the code does on the filter of the claim: the unit written
    after the closing brace is not part of the pattern of line 91, so the
    parsed condition has no unit, the post [Align Time: 200] passes, and
    the filter of the documentation, [Avg Align Time{>150}s], rejects the
    post [Avg Align Time: 200s] that it is documented to find. *)
Theorem unit_after_brace_is_dropped :
  parse_single_condition (py "Align Time{>150}s") =
    Numeric (py "Align Time") (py ">") (py "150") /\
  check_condition (py "Align Time: 200")
    (parse_single_condition (py "Align Time{>150}s")) = Ok true /\
  check_condition (py "Avg Align Time: 200s")
    (parse_single_condition (py "Avg Align Time{>150}s")) = Ok false /\
  check_condition (py "Align Time: 200")
    (parse_single_condition (py "Align Time{>150s}")) = Ok false.
Proof. repeat split; vm_compute; reflexivity. Qed.

Lemma re_match_fails (r : regex) (s : str) :
  ~ matches_at_start r s -> re_match r s = None.
Proof.
  intros H. destruct (re_match r s) as [[g rest]|] eqn:E; [|reflexivity].
  exfalso. apply H.
  apply re_match_sound in E as (w & Hs & Hw).
  exists w, rest. eauto using langg_lang.
Qed.

(** C7.  The rules of the parser in their order.  A fragment with a slash
    is [Alternatives] of its pieces between slashes, whatever else it
    matches, and the condition holds of a post exactly when one piece
    occurs in it as it stands.  A fragment with no slash that neither the
    timer pattern nor the numeric pattern matches is [Text] of the whole
    fragment.  The examples: a timer and a numeric fragment with a slash,
    and three misspelt fragments. *)
Theorem parser_rules_in_order :
  (forall c,
      In (chr "/") c ->
      parse_single_condition c = Alternatives (split (chr "/") c) /\
      join (py "/") (split (chr "/") c) = c /\
      forall post,
        check_condition post (parse_single_condition c) = Ok true <->
        exists v a b, In v (split (chr "/") c) /\ post = a ++ v ++ b) /\
  (forall c,
      ~ In (chr "/") c ->
      ~ matches_at_start timer_filter_re c ->
      ~ matches_at_start numeric_filter_re c ->
      parse_single_condition c = Text c) /\
  parse_single_condition (stopwatch ++ py "{<5} min/x") =
    Alternatives [stopwatch ++ py "{<5} min"; py "x"] /\
  parse_single_condition (py "Spread{>10%}/Spread{<5%}") =
    Alternatives [py "Spread{>10%}"; py "Spread{<5%}"] /\
  parse_single_condition (py "Spread{>>10%}") = Text (py "Spread{>>10%}") /\
  parse_single_condition (py "Spread{>10") = Text (py "Spread{>10") /\
  parse_single_condition (stopwatch ++ py "{5} min") =
    Text (stopwatch ++ py "{5} min").
Proof.
  split; [|split; [|repeat split; vm_compute; reflexivity]].
  - intros c Hc. apply has_char_In in Hc.
    assert (E : parse_single_condition c = Alternatives (split (chr "/") c)).
    { unfold parse_single_condition. rewrite Hc. reflexivity. }
    split; [exact E|]. split; [apply join_split|].
    intros post. rewrite E. simpl. split.
    + intros H. injection H as H. apply existsb_exists in H as (v & Hv & H).
      apply contains_inv in H as (a & b & ->). eauto.
    + intros (v & a & b & Hv & ->). f_equal. apply existsb_exists.
      exists v. split; [exact Hv | apply contains_app].
  - intros c Hc Ht Hn. unfold parse_single_condition.
    destruct (has_char (chr "/") c) eqn:E.
    + apply has_char_In in E. contradiction.
    + rewrite (re_match_fails _ _ Ht), (re_match_fails _ _ Hn). reflexivity.
Qed.

Lemma parser_rules_in_order_witness :
  parse_single_condition (py "buy/sell") = Alternatives [py "buy"; py "sell"] /\
  parse_single_condition (py "Scores: high") = Text (py "Scores: high").
Proof.
  split.
  - refine (proj1 (proj1 parser_rules_in_order (py "buy/sell") _)).
    vm_compute. auto.
  - refine (proj1 (proj2 parser_rules_in_order) (py "Scores: high") _ _ _).
    + vm_compute. intuition discriminate.
    + intros (w & rest & E & Hw).
      destruct Hw as (u & v & -> & Hu & _). simpl in Hu. subst u.
      vm_compute in E. discriminate.
    + intros (w & rest & E & Hw).
      destruct Hw as (u & v & -> & _ & (b & v' & -> & Hb & _)).
      simpl in Hb. subst b.
      assert (Hin : In (chr "{") (py "Scores: high")).
      { rewrite E. apply in_or_app. left. apply in_or_app. right.
        apply in_or_app. left. vm_compute. auto. }
      vm_compute in Hin. intuition discriminate.
Defined.

(** C10.  A fragment that starts or ends with a slash, or has two slashes
    in a row, parses to alternatives among which is the empty string; the
    condition then holds of every post, and so do a filter made of that
    condition, under either composition, and every parsed filter that has
    the condition, under the composition by [any]. *)
Theorem empty_alternative_passes_all (c : str) :
  (exists b, c = chr "/" :: b) \/
  (exists a, c = a ++ [chr "/"]) \/
  (exists a b, c = a ++ chr "/" :: chr "/" :: b) ->
  exists values,
    parse_single_condition c = Alternatives values /\
    In [] values /\
    forall post,
      check_condition post (parse_single_condition c) = Ok true /\
      (forall flag,
          evaluate_filter post [parse_single_condition c] flag = Ok true) /\
      (forall conditions,
          Forall wf conditions ->
          In (parse_single_condition c) conditions ->
          evaluate_filter post conditions false = Ok true).
Proof.
  intros H.
  assert (Hin : In (chr "/") c).
  { destruct H as [(b & ->) | [(a & ->) | (a & b & ->)]].
    - left. reflexivity.
    - apply in_or_app. right. left. reflexivity.
    - apply in_or_app. right. left. reflexivity. }
  assert (Hnil : In [] (split (chr "/") c)).
  { destruct H as [(b & ->) | [(a & ->) | (a & b & ->)]].
    - change (In [] ([] :: split (chr "/") b)). left. reflexivity.
    - rewrite split_app. apply in_or_app. right. left. reflexivity.
    - rewrite split_app. apply in_or_app. right.
      change (In [] ([] :: split (chr "/") b)). left. reflexivity. }
  apply has_char_In in Hin.
  assert (E : parse_single_condition c = Alternatives (split (chr "/") c)).
  { unfold parse_single_condition. rewrite Hin. reflexivity. }
  exists (split (chr "/") c). split; [exact E|]. split; [exact Hnil|].
  intros post.
  assert (Hc : check_condition post (parse_single_condition c) = Ok true).
  { rewrite E. simpl. f_equal. apply existsb_exists.
    exists []. split; [exact Hnil | apply contains_nil]. }
  split; [exact Hc|]. split.
  - intros flag. unfold evaluate_filter. simpl.
    rewrite Hc. simpl. destruct flag; reflexivity.
  - intros conditions Hwf Hcs. eapply evaluate_any; eassumption.
Qed.

Lemma empty_alternative_passes_all_witness :
  exists values,
    parse_single_condition (py "buy/") = Alternatives values /\
    In [] values /\
    forall post,
      check_condition post (parse_single_condition (py "buy/")) = Ok true /\
      (forall flag,
          evaluate_filter post [parse_single_condition (py "buy/")] flag
          = Ok true) /\
      (forall conditions,
          Forall wf conditions ->
          In (parse_single_condition (py "buy/")) conditions ->
          evaluate_filter post conditions false = Ok true).
Proof.
  apply (empty_alternative_passes_all (py "buy/")).
  right. left. exists (py "buy"). reflexivity.
Defined.

(** C9.  A timer condition is [false] on a post in which the pattern
    (stopwatch, spaces, a decimal number, spaces, [min]) occurs nowhere.
    On a post in which it occurs, the leftmost occurrence is taken, and the
    answer is the comparison of the float of its number with the float of
    the threshold under the operator of the condition.  The filter
    [⏱️{<5} min] is such a condition; it holds of the post [⏱️ 3 min] and
    not of the post [⏱️ 7 min].  Written with the glyph U+29D7 instead of
    the stopwatch, the same filter and posts give the same two answers. *)
Theorem timer_condition :
  (forall post op value,
      ~ occurs timer_post_re post ->
      check_condition post (Timer op value) = Ok false) /\
  (forall post op value,
      occurs timer_post_re post ->
      wf (Timer op value) ->
      exists pre ws num ws' rest x t,
        post = pre ++ (stopwatch ++ ws ++ num ++ ws' ++ py "min") ++ rest /\
        all_in CSpace ws /\ lang number_re num /\ all_in CSpace ws' /\
        (forall pre' w' post',
            post = pre' ++ w' ++ post' -> lang timer_post_re w' ->
            length pre <= length pre') /\
        py_float num = Some x /\
        py_float value = Some t /\
        check_condition post (Timer op value) = compare_with op x t) /\
  (forall a b,
      compare_with (py ">") a b = Ok (fgt a b) /\
      compare_with (py "<") a b = Ok (flt a b) /\
      compare_with (py ">=") a b = Ok (fge a b) /\
      compare_with (py "<=") a b = Ok (fle a b)) /\
  py "⏱️" = stopwatch /\
  parse_single_condition (py "⏱️{<5} min") = Timer (py "<") (py "5") /\
  check_condition (py "⏱️ 3 min")
    (parse_single_condition (py "⏱️{<5} min")) = Ok true /\
  check_condition (py "⏱️ 7 min")
    (parse_single_condition (py "⏱️{<5} min")) = Ok false /\
  check_condition (py "no timer here")
    (parse_single_condition (py "⏱️{<5} min")) = Ok false /\
  check_condition (py "⧗ 3 min")
    (parse_single_condition (py "⧗{<5} min")) = Ok true /\
  check_condition (py "⧗ 7 min")
    (parse_single_condition (py "⧗{<5} min")) = Ok false.
Proof.
  split; [|split; [|split; [|repeat split; vm_compute; reflexivity]]].
  - intros post op value H. apply re_search_none in H. simpl. rewrite H.
    reflexivity.
  - intros post op value Hocc [Hop Hv].
    destruct (re_search timer_post_re post) as [[g rest]|] eqn:E.
    + simpl. rewrite E.
      apply timer_search_inv in E
        as (pre & ws & num & ws' & Hpost & H1 & Hnum & H2 & -> & Hleft).
      destruct (py_float_number _ Hnum) as (x & Ex).
      destruct (py_float_number _ Hv) as (t & Et).
      exists pre, ws, num, ws', rest, x, t. rewrite Ex, Et. simpl.
      repeat (split; [assumption|]). repeat split.
    + apply re_search_none in E. contradiction.
  - intros a b. repeat split.
Qed.

Lemma timer_condition_witness :
  check_condition (py "no timer here") (Timer (py "<") (py "5")) = Ok false /\
  exists pre ws num ws' rest x t,
    py "up ⏱️ 3 min left" =
      pre ++ (stopwatch ++ ws ++ num ++ ws' ++ py "min") ++ rest /\
    all_in CSpace ws /\ lang number_re num /\ all_in CSpace ws' /\
    (forall pre' w' post',
        py "up ⏱️ 3 min left" = pre' ++ w' ++ post' ->
        lang timer_post_re w' -> length pre <= length pre') /\
    py_float num = Some x /\
    py_float (py "5") = Some t /\
    check_condition (py "up ⏱️ 3 min left") (Timer (py "<") (py "5")) =
    compare_with (py "<") x t.
Proof.
  split.
  - apply (proj1 timer_condition). apply re_search_none.
    vm_compute. reflexivity.
  - apply (proj1 (proj2 timer_condition)).
    + eapply re_search_occurs. vm_compute. reflexivity.
    + exact (parse_wf (py "⏱️{<5} min")).
Defined.

(* ================================================================== *)
(** * The composition flag of the polling loop *)
(* ================================================================== *)

(** The dump of every condition starts with [{"type"] and so holds a
    double quote. *)
Lemma dumps_has_quote (c : Condition) : has_char 34%N (Json.dumps c) = true.
Proof. destruct c; reflexivity. Qed.

(** The flag of line 670 is [True] for every filter that has a condition,
    whether or not the submission had quotes. *)
Lemma all_must_match_of_nonempty (conditions : list Condition) :
  all_must_match_of conditions =
  match conditions with [] => false | _ :: _ => true end.
Proof.
  destruct conditions as [|c cs]; [reflexivity|].
  unfold all_must_match_of. simpl. rewrite dumps_has_quote. reflexivity.
Qed.

(** C1.  What the code does on a submission without quotes: the two lines
    [buy] and [sell] give two conditions, the flag that the loop computes
    for them is [True], and the post [buy now], which the filter accepts
    under the composition documented for such a submission, is rejected
    and not forwarded.  The flag is [True] for every non-empty filter. *)
Theorem unquoted_filter_gets_and_composition :
  (forall conditions,
      all_must_match_of conditions =
      match conditions with [] => false | _ :: _ => true end) /\
  has_char 34%N buy_or_sell = false /\
  parse_filter buy_or_sell = [Text (py "buy"); Text (py "sell")] /\
  all_must_match_of (parse_filter buy_or_sell) = true /\
  evaluate_filter (py "buy now") (parse_filter buy_or_sell) false = Ok true /\
  evaluate_filter (py "buy now") (parse_filter buy_or_sell)
    (all_must_match_of (parse_filter buy_or_sell)) = Ok false /\
  (forall sink set_order,
      let channel := mkChannel (parse_filter buy_or_sell) 100 None in
      let post := mkPost 101 (py "buy now") (py "https://t.me/c/101") in
      snd (poll_channels (fun _ => [post]) sink set_order [(py "@c", channel)])
      = [Fetch (py "@c");
         Save [(py "@c", set_last_post_id channel 101)]]).
Proof.
  split; [exact all_must_match_of_nonempty|].
  repeat split; vm_compute; reflexivity.
Qed.

(* ================================================================== *)
(** * Facts about the template formatter *)
(* ================================================================== *)

Module TemplateFacts.

Lemma token_py (ph : str) : (py "{" ++ ph ++ py "}")%list = token ph.
Proof. reflexivity. Qed.

(** ** [str.replace] *)

Lemma replace_go_skip (old new w b : str) :
  replace_go old new (w ++ b) (length w) = replace_go old new b 0.
Proof.
  induction w as [|x w IH]; simpl; [reflexivity | exact IH].
Qed.

Lemma startswith_head (x : N) (r s : str) :
  ~ In x s -> forall y s', s = y :: s' -> startswith (x :: r) s = false.
Proof.
  intros Hn y s' ->. simpl. destruct (x =? y)%N eqn:E; [|reflexivity].
  apply N.eqb_eq in E. subst. exfalso. apply Hn. left. reflexivity.
Qed.

(** A string without the first character of [old] is left as it is. *)
Lemma replace_absent (x : N) (r new s : str) :
  ~ In x s -> replace (x :: r) new s = s.
Proof.
  unfold replace. induction s as [|y s IH]; intros Hn; [reflexivity|].
  cbn [replace_go]. rewrite (@startswith_head x r (y :: s) Hn y s eq_refl).
  f_equal. apply IH. intros H. apply Hn. right. exact H.
Qed.

Lemma replace_go_hit (x : N) (r new b : str) :
  replace_go (x :: r) new ((x :: r) ++ b) 0 =
  new ++ replace_go (x :: r) new b 0.
Proof.
  pose proof (startswith_app (x :: r) b) as E.
  cbn [app] in *. cbn [replace_go]. rewrite E. f_equal.
  replace (length (x :: r) - 1) with (length r) by (simpl; lia).
  apply replace_go_skip.
Qed.

(** The first occurrence is replaced and the rest goes on after it. *)
Lemma replace_first (x : N) (r new a b : str) :
  ~ In x a ->
  replace (x :: r) new (a ++ (x :: r) ++ b) =
  a ++ new ++ replace (x :: r) new b.
Proof.
  unfold replace. induction a as [|y a IH]; intros Hn.
  - apply replace_go_hit.
  - cbn [app replace_go].
    assert (E : startswith (x :: r) (y :: a ++ x :: r ++ b) = false).
    { simpl. destruct (x =? y)%N eqn:E; [|reflexivity].
      apply N.eqb_eq in E. subst. exfalso. apply Hn. left. reflexivity. }
    rewrite E. f_equal. apply IH.
    intros H. apply Hn. right. exact H.
Qed.

(** ** [re.findall] of the placeholder pattern *)

Lemma findall_go_skip (r : regex) (w b : str) :
  findall_go r (w ++ b) (length w) = findall_go r b 0.
Proof.
  induction w as [|x w IH]; simpl; [reflexivity | exact IH].
Qed.

Lemma placeholder_needs_brace (x : N) (s : str) :
  x <> lbrace -> re_match placeholder_re (x :: s) = None.
Proof.
  intros H. unfold re_match, placeholder_re, lit.
  change (py "{") with [lbrace]. cbn [rx].
  replace (startswith [lbrace] (x :: s)) with false; [reflexivity|].
  symmetry. cbn [startswith].
  destruct (N.eqb_spec lbrace x); [subst; contradiction | reflexivity].
Qed.

Lemma findall_no_brace (s : str) :
  ~ In lbrace s -> findall placeholder_re s = [].
Proof.
  unfold findall. induction s as [|x s IH]; intros Hn; [reflexivity|].
  cbn [findall_go]. rewrite placeholder_needs_brace.
  - apply IH. intros H. apply Hn. right. exact H.
  - intros ->. apply Hn. left. reflexivity.
Qed.

(** A greedy run stops at the first character out of the class when what
    follows accepts it there. *)
Lemma star_greedy_stop (A : Type) (c : cclass) (w : str) (x : N) (s : str)
    (k : str -> option A) (res : A) :
  all_in c w -> cmatch c x = false -> k (x :: s) = Some res ->
  star_greedy c (w ++ x :: s) k = Some res.
Proof.
  intros Hw Hx Hk. induction Hw as [|y w Hy Hw IH]; simpl.
  - rewrite Hx. exact Hk.
  - rewrite Hy, IH. reflexivity.
Qed.

Lemma no_rbrace_In (ph : str) : ~ In rbrace ph -> no_rbrace ph.
Proof.
  intros H. apply Forall_forall. intros y Hy. simpl.
  destruct (y =? rbrace)%N eqn:E; [|reflexivity].
  apply N.eqb_eq in E. subst. contradiction.
Qed.

(** The pattern reads a token and captures its name. *)
Lemma placeholder_match (ph b : str) :
  ph <> [] -> ~ In rbrace ph ->
  re_match placeholder_re (token ph ++ b) = Some ([(1%nat, ph)], b).
Proof.
  intros Hne Hn. apply no_rbrace_In in Hn.
  destruct ph as [|y ph]; [congruence|]. inversion Hn; subst.
  unfold re_match, placeholder_re, token, lit, one.
  change (py "{") with [lbrace]. change (py "}") with [rbrace].
  change (chr "}") with rbrace.
  cbn [rx app startswith length skipn]. rewrite N.eqb_refl. cbn [andb].
  rewrite H1. rewrite <- app_assoc. cbn [app].
  apply star_greedy_stop; [assumption | |].
  - reflexivity.
  - rewrite N.eqb_refl. cbn [andb].
    match goal with
    | |- context [firstn ?n ?l] =>
        change (firstn n l)
          with (firstn (length ((y :: ph) ++ rbrace :: b) -
                        length (rbrace :: b)) ((y :: ph) ++ rbrace :: b))
    end.
    rewrite firstn_consumed. reflexivity.
Qed.

(** The placeholders of a line with one token and no other opening brace
    before it. *)
Lemma findall_token (a ph b : str) :
  ~ In lbrace a -> ph <> [] -> ~ In rbrace ph ->
  findall placeholder_re (a ++ token ph ++ b) =
  ph :: findall placeholder_re b.
Proof.
  intros Ha Hne Hn. unfold findall. induction a as [|x a IH].
  - cbn [app]. pose proof (placeholder_match ph b Hne Hn) as E.
    unfold token in *. cbn [app findall_go] in *. rewrite E. cbn [group].
    cbn [Nat.eqb]. f_equal.
    replace (length (lbrace :: (ph ++ [rbrace]) ++ b) - length b - 1)
      with (length (ph ++ [rbrace])).
    + apply findall_go_skip.
    + cbn [length]. rewrite (length_app (ph ++ [rbrace]) b). lia.
  - cbn [app findall_go]. rewrite placeholder_needs_brace.
    + apply IH. intros H. apply Ha. right. exact H.
    + intros ->. apply Ha. left. reflexivity.
Qed.

(** ** The formatter *)

Lemma call_type_none (post_text : str) (tpl : CallTemplate) :
  call_type_of post_text tpl = None <->
  (forall tag lines, In (tag, lines) tpl -> contains tag post_text = false).
Proof.
  induction tpl as [|[t l] tpl IH]; simpl.
  - split; [intros _ tag lines [] | reflexivity].
  - destruct (contains t post_text) eqn:E.
    + split; [discriminate|]. intros H.
      rewrite (H t l) in E; [discriminate | left; reflexivity].
    + rewrite IH. split.
      * intros H tag lines [Eq | Hin]; [injection Eq as <- <-; exact E | eauto].
      * intros H tag lines Hin. eapply H. right. exact Hin.
Qed.

Lemma call_type_first (post_text : str) (before : CallTemplate) (tag : str)
    (lines : list str) (after : CallTemplate) :
  (forall t l, In (t, l) before -> contains t post_text = false) ->
  contains tag post_text = true ->
  call_type_of post_text (before ++ (tag, lines) :: after) = Some tag.
Proof.
  induction before as [|[t l] before IH]; simpl; intros Hb Ht.
  - rewrite Ht. reflexivity.
  - rewrite (Hb t l) by (left; reflexivity). apply IH; [|exact Ht].
    intros t' l' Hin. eapply Hb. right. exact Hin.
Qed.

Lemma get_first (V : Type) (before : list (str * V)) (k : str) (v : V)
    (after : list (str * V)) :
  (forall k' v', In (k', v') before -> k' <> k) ->
  get (before ++ (k, v) :: after) k = Some v.
Proof.
  induction before as [|[k' v'] before IH]; simpl; intros Hb.
  - rewrite eqb_refl. reflexivity.
  - destruct (eqb k k') eqn:E.
    + apply eqb_eq in E. subst. exfalso. eapply Hb; [left|]; reflexivity.
    + apply IH. intros k1 v1 Hin. eapply Hb. right. exact Hin.
Qed.

Lemma value_of_unregistered (post_text ph : str) :
  get extraction_patterns ph = None -> value_of post_text ph = NA.
Proof. intros H. unfold value_of. rewrite H. reflexivity. Qed.

Lemma value_of_unmatched (post_text ph : str) (pattern : regex) :
  get extraction_patterns ph = Some pattern ->
  ~ occurs pattern post_text ->
  value_of post_text ph = NA.
Proof.
  intros H Hn. unfold value_of. rewrite H.
  apply re_search_none in Hn. rewrite Hn. reflexivity.
Qed.

End TemplateFacts.
Import TemplateFacts.

(* ================================================================== *)
(** * Properties of the template formatter *)
(* ================================================================== *)

Lemma format_unfold (set_order : list str -> list str) (post_text : str)
    (tpl : CallTemplate) :
  format_call_message set_order post_text (Some tpl) =
  match call_type_of post_text tpl with
  | None | Some [] => None
  | Some call_type =>
      match get tpl call_type with
      | None | Some [] => None
      | Some call_lines =>
          Some (join [10%N]
                  (map (format_line
                          (map (fun ph => (ph, value_of post_text ph))
                               (set_order (placeholders_of call_lines))))
                       call_lines))
      end
  end.
Proof. destruct tpl; reflexivity. Qed.

Lemma distinct_In (x : str) (l : list str) : In x (distinct l) <-> In x l.
Proof.
  induction l as [|y l IH]; simpl; [tauto|].
  rewrite filter_In, IH. split.
  - intros [H | [H _]]; auto.
  - intros [H | H]; [auto|].
    destruct (eqb y x) eqn:E.
    + apply eqb_eq in E. auto.
    + right. split; [exact H | reflexivity].
Qed.

(** The formatter on a template whose first tag present in the post is
    [tag]: the lines of that branch, each with the values put in. *)
Lemma format_first_tag (set_order : list str -> list str) (post_text : str)
    (before : CallTemplate) (tag : str) (lines : list str)
    (after : CallTemplate) :
  (forall t l, In (t, l) before -> contains t post_text = false) ->
  contains tag post_text = true -> tag <> [] -> lines <> [] ->
  format_call_message set_order post_text
    (Some (before ++ (tag, lines) :: after)) =
  Some (join [10%N]
          (map (format_line
                  (map (fun ph => (ph, value_of post_text ph))
                       (set_order (placeholders_of lines))))
               lines)).
Proof.
  intros Hb Ht Hne Hl. rewrite format_unfold.
  rewrite (call_type_first _ _ _ lines after Hb Ht).
  destruct tag as [|c tag]; [congruence|].
  rewrite get_first.
  - destruct lines; [congruence | reflexivity].
  - intros k' v' Hin E. subst k'. rewrite (Hb _ _ Hin) in Ht. discriminate.
Qed.

(** C8.  For every iteration order of sets: the formatter gives nothing
    for an absent or empty template and for a post in which no tag of the
    template occurs; otherwise the first tag of the template, in the order
    of its keys, that occurs in the post is selected, the result is the
    lines of its branch joined by newlines, and every placeholder of these
    lines has its value in the table of replacements.  That value is [N/A]
    for a placeholder without a registered pattern and for one whose
    pattern occurs nowhere in the post.  A branch of one line with one
    placeholder gives that line with the value in the place of the token.
    With the branch [ENTRY: {Price}] for the red square, which is what the
    template parser makes of the two lines of [entry_template], a post
    with the square and [Price: $42.50] gives [ENTRY: 42.50], a post
    without a price gives [ENTRY: N/A], and the unregistered [{Stop}]
    gives [N/A]. *)
Theorem formatter_selects_and_fills (set_order : list str -> list str)
    (Hset : is_set_order set_order) :
  (forall post,
      format_call_message set_order post None = None /\
      format_call_message set_order post (Some []) = None) /\
  (forall post tpl,
      (forall tag lines, In (tag, lines) tpl -> contains tag post = false) ->
      format_call_message set_order post (Some tpl) = None) /\
  (forall post before tag lines after,
      (forall t l, In (t, l) before -> contains t post = false) ->
      contains tag post = true -> tag <> [] -> lines <> [] ->
      call_type_of post (before ++ (tag, lines) :: after) = Some tag /\
      exists values,
        format_call_message set_order post
          (Some (before ++ (tag, lines) :: after)) =
        Some (join [10%N] (map (format_line values) lines)) /\
        (forall line ph,
            In line lines -> In ph (findall placeholder_re line) ->
            In (ph, value_of post ph) values) /\
        (forall ph v, In (ph, v) values -> v = value_of post ph)) /\
  (forall post ph,
      get extraction_patterns ph = None -> value_of post ph = NA) /\
  (forall post ph pattern,
      get extraction_patterns ph = Some pattern ->
      ~ occurs pattern post -> value_of post ph = NA) /\
  (forall post tag a ph b,
      contains tag post = true -> tag <> [] ->
      ~ In lbrace a -> ~ In lbrace b -> ph <> [] -> ~ In rbrace ph ->
      format_call_message set_order post
        (Some [(tag, [a ++ token ph ++ b])]) =
      Some (a ++ value_of post ph ++ b)) /\
  parse_call_template entry_template = [(py "🟥", [py "ENTRY: {Price}"])] /\
  format_call_message set_order (py "🟥 Price: $42.50")
    (Some [(py "🟥", [py "ENTRY: {Price}"])]) = Some (py "ENTRY: 42.50") /\
  format_call_message set_order (py "🟥 no price here")
    (Some [(py "🟥", [py "ENTRY: {Price}"])]) = Some (py "ENTRY: N/A") /\
  format_call_message set_order (py "🟥 Price: $42.50")
    (Some [(py "🟥", [py "SL: {Stop}"])]) = Some (py "SL: N/A").
Proof.
  assert (Hone : forall post tag a ph b,
      contains tag post = true -> tag <> [] ->
      ~ In lbrace a -> ~ In lbrace b -> ph <> [] -> ~ In rbrace ph ->
      format_call_message set_order post
        (Some [(tag, [a ++ token ph ++ b])]) =
      Some (a ++ value_of post ph ++ b)).
  { intros post tag a ph b Ht Hne Ha Hb Hph Hr.
    pose proof (format_first_tag set_order post [] tag [a ++ token ph ++ b] [])
      as E.
    change ([] ++ [(tag, [a ++ token ph ++ b])])
      with [(tag, [a ++ token ph ++ b])] in E.
    etransitivity;
      [apply E; try assumption; [intros t l [] | discriminate]|]. clear E.
    assert (Ep : placeholders_of [a ++ token ph ++ b] = [ph]).
    { unfold placeholders_of. cbn [flat_map].
      rewrite app_nil_r, (findall_token a ph b Ha Hph Hr), (findall_no_brace b Hb).
      reflexivity. }
    rewrite Ep.
    assert (Eo : set_order [ph] = [ph]).
    { apply Permutation_length_1_inv. apply Permutation_sym. apply Hset. }
    rewrite Eo. cbn [map join format_line fold_left fst snd].
    rewrite token_py. unfold token at 1.
    rewrite (@replace_first lbrace (ph ++ [rbrace]) _ a b Ha).
    rewrite (replace_absent _ _ _ b Hb). reflexivity. }
  split; [intros post; split; reflexivity|].
  split.
  { intros post tpl Hn. rewrite format_unfold.
    apply call_type_none in Hn. rewrite Hn. reflexivity. }
  split.
  { intros post before tag lines after Hb Ht Hne Hl.
    split; [apply call_type_first; assumption|].
    eexists. split; [apply format_first_tag; assumption|]. split.
    - intros line ph Hline Hph. apply in_map_iff. exists ph.
      split; [reflexivity|].
      apply (Permutation_in _ (Permutation_sym (Hset _))).
      apply distinct_In. apply in_flat_map. eauto.
    - intros ph v Hin. apply in_map_iff in Hin as (ph' & E & _).
      injection E as <- <-. reflexivity. }
  split; [intros; apply value_of_unregistered; assumption|].
  split; [intros; eapply value_of_unmatched; eassumption|].
  split; [exact Hone|].
  split; [vm_compute; reflexivity|].
  split; [|split].
  - apply (Hone (py "🟥 Price: $42.50") (py "🟥") (py "ENTRY: ") (py "Price") []);
      vm_compute; try reflexivity; try discriminate; intuition discriminate.
  - apply (Hone (py "🟥 no price here") (py "🟥") (py "ENTRY: ") (py "Price") []);
      vm_compute; try reflexivity; try discriminate; intuition discriminate.
  - apply (Hone (py "🟥 Price: $42.50") (py "🟥") (py "SL: ") (py "Stop") []);
      vm_compute; try reflexivity; try discriminate; intuition discriminate.
Qed.

Lemma formatter_selects_and_fills_witness :
  format_call_message (fun l => l) (py "🟥 Price: $42.50")
    (Some [(py "🟥", [py "ENTRY: {Price}"])]) = Some (py "ENTRY: 42.50").
Proof.
  assert (H : is_set_order (fun l => l)) by (intros l; apply Permutation_refl).
  exact (proj1 (proj2 (proj2 (proj2 (proj2 (proj2 (proj2 (proj2
           (formatter_selects_and_fills _ H))))))))).
Defined.

(* ================================================================== *)
(** * Facts about the polling loop *)
(* ================================================================== *)

Module PollFacts.

Local Open Scope Z_scope.

Lemma fold_max_spec (ps : list Post) (a : Z) :
  let m := fold_left (fun m q => Z.max m (id q)) ps a in
  a <= m /\ (forall q, In q ps -> id q <= m) /\
  (m = a \/ exists q, In q ps /\ id q = m).
Proof.
  revert a. induction ps as [|p ps IH]; intros a; simpl.
  - split; [lia|]. split; [intros q []|]. left. reflexivity.
  - destruct (IH (Z.max a (id p))) as (H1 & H2 & H3). split; [lia|]. split.
    + intros q [<- | Hq]; [lia | auto].
    + destruct H3 as [H3 | (q & Hq & H3)].
      * destruct (Z.max_spec a (id p)) as [[_ E] | [_ E]].
        -- right. exists p. split; [left; reflexivity | rewrite H3; lia].
        -- left. rewrite H3. exact E.
      * right. exists q. split; [right; exact Hq | exact H3].
Qed.

(** The maximum of a batch is the id of one of its posts and bounds the
    ids of all of them. *)
Lemma max_post_id_spec (posts : list Post) (m : Z) :
  max_post_id posts = Ok m ->
  (exists p, In p posts /\ id p = m) /\ (forall p, In p posts -> id p <= m).
Proof.
  destruct posts as [|p ps]; simpl; [discriminate|]. intros E.
  injection E as <-. destruct (fold_max_spec ps (id p)) as (H1 & H2 & H3).
  split.
  - destruct H3 as [H3 | (q & Hq & H3)]; [exists p | exists q]; auto.
  - intros q [<- | Hq]; auto.
Qed.

Lemma max_post_id_total (posts : list Post) :
  posts <> [] -> exists m, max_post_id posts = Ok m.
Proof. destruct posts; [congruence | simpl; eauto]. Qed.

Lemma new_posts_nil (data : ChannelData) (posts : list Post) :
  new_posts_of data posts = [] <->
  (forall p, In p posts -> id p <= last_post_id data).
Proof.
  unfold new_posts_of. induction posts as [|p ps IH]; simpl.
  - split; [intros _ p [] | reflexivity].
  - destruct (last_post_id data <? id p) eqn:E.
    + split; [discriminate|]. intros H.
      apply Z.ltb_lt in E. specialize (H p (or_introl eq_refl)). lia.
    + apply Z.ltb_ge in E. rewrite IH. split.
      * intros H q [<- | Hq]; auto.
      * intros H q Hq. apply H. right. exact Hq.
Qed.

Lemma new_posts_In (data : ChannelData) (posts : list Post) (p : Post) :
  In p (new_posts_of data posts) <-> In p posts /\ last_post_id data < id p.
Proof.
  unfold new_posts_of. rewrite filter_In, Z.ltb_lt. reflexivity.
Qed.

(** ** The sort *)

Lemma insert_post_perm (p : Post) (l : list Post) :
  Permutation (insert_post p l) (p :: l).
Proof.
  induction l as [|q l IH]; simpl; [apply Permutation_refl|].
  destruct (id p <=? id q); [apply Permutation_refl|].
  eapply Permutation_trans; [apply perm_skip, IH | apply perm_swap].
Qed.

Lemma sorted_posts_perm (l : list Post) : Permutation (sorted_posts l) l.
Proof.
  induction l as [|p l IH]; simpl; [constructor|].
  eapply Permutation_trans; [apply insert_post_perm | apply perm_skip, IH].
Qed.

Lemma insert_post_sorted (p : Post) (l : list Post) :
  StronglySorted id_le l -> StronglySorted id_le (insert_post p l).
Proof.
  induction 1 as [|q l Hl IH Hq]; simpl.
  - constructor; constructor.
  - destruct (id p <=? id q) eqn:E.
    + apply Z.leb_le in E. constructor; [constructor; assumption|].
      constructor; [exact E|].
      eapply Forall_impl; [|exact Hq]. unfold id_le. intros; lia.
    + apply Z.leb_gt in E. constructor; [exact IH|].
      apply (Permutation_Forall (Permutation_sym (insert_post_perm p l))).
      constructor; [unfold id_le; lia | exact Hq].
Qed.

(** The posts are handled in ascending order of their ids. *)
Lemma sorted_posts_sorted (l : list Post) :
  StronglySorted id_le (sorted_posts l).
Proof.
  induction l as [|p l IH]; simpl; [constructor|].
  apply insert_post_sorted. exact IH.
Qed.

End PollFacts.
Import PollFacts.

(* ================================================================== *)
(** * Properties of the polling loop *)
(* ================================================================== *)

Section WorldFacts.
Variable fetch : str -> list Post.
Variable sink : trace -> str -> bool -> bool.
Variable set_order : list str -> list str.

Local Open Scope Z_scope.

(** The loop over the posts only adds calls to the sink. *)
Lemma forward_sends (channel : str) (data : ChannelData) (posts : list Post) :
  forall tr, exists sends,
    fst (forward sink set_order channel data posts tr) = tr ++ sends /\
    Forall is_send sends.
Proof.
  induction posts as [|post rest IH]; intros tr; simpl.
  - exists []. rewrite app_nil_r. split; [reflexivity | constructor].
  - destruct (evaluate_filter (text post) (filter_of data)
                (all_must_match_of (filter_of data))) as [[|]|].
    + destruct (sink tr (primary_message set_order channel data post) true).
      * destruct (IH (tr ++ [Send (primary_message set_order channel data post)
                               true true])) as (sends & -> & Hs).
        eexists. rewrite <- app_assoc. split; [reflexivity|].
        constructor; [exact I | exact Hs].
      * destruct (sink _ (fallback_message channel post) false).
        -- destruct (IH ((tr ++ [Send (primary_message set_order channel data
                                         post) true false]) ++
                         [Send (fallback_message channel post) false true]))
             as (sends & -> & Hs).
           eexists. rewrite <- !app_assoc. split; [reflexivity|].
           constructor; [exact I|]. constructor; [exact I | exact Hs].
        -- simpl. eexists. rewrite <- !app_assoc. split; [reflexivity|].
           repeat constructor.
    + apply IH.
    + exists []. simpl. rewrite app_nil_r. split; [reflexivity | constructor].
Qed.

(** The three ways through the body of the loop for one channel. *)
Lemma poll_channel_cases (before : Channels) (channel : str)
    (data : ChannelData) (after file : Channels) (tr : trace) :
  let result :=
    poll_channel fetch sink set_order before channel data after file tr in
  (filter_of data = [] /\ result = (data, file, tr)) \/
  (filter_of data <> [] /\ new_posts_of data (fetch channel) = [] /\
   result = (data, file, tr ++ [Fetch channel])) \/
  (filter_of data <> [] /\ new_posts_of data (fetch channel) <> [] /\
   exists m,
     max_post_id (fetch channel) = Ok m /\
     let data' := set_last_post_id data m in
     let file' := before ++ (channel, data') :: after in
     result =
     (data', file',
      fst (forward sink set_order channel data'
             (sorted_posts (new_posts_of data (fetch channel)))
             ((tr ++ [Fetch channel]) ++ [Save file'])))).
Proof.
  unfold poll_channel. fold (new_posts_of data (fetch channel)).
  destruct (filter_of data) as [|c cs] eqn:Ef; [left; auto|].
  right. destruct (new_posts_of data (fetch channel)) as [|p ps] eqn:En.
  - left. repeat split. discriminate.
  - right. split; [discriminate|]. split; [discriminate|].
    destruct (max_post_id_total (fetch channel)) as (m & Em).
    + intros E. unfold new_posts_of in En. rewrite E in En. discriminate.
    + exists m. rewrite Em. split; reflexivity.
Qed.

End WorldFacts.

Local Open Scope Z_scope.

(** ** Two runs on the same batches *)

Section TwoRuns.
Variable fetch : str -> list Post.
Variable sink : trace -> str -> bool -> bool.
Variable set_order : list str -> list str.

(** The entry that a pass gives does not depend on the rest of the run. *)
Lemma poll_channel_data (before : Channels) (channel : str)
    (data : ChannelData) (after file : Channels) (tr : trace) :
  fst (fst (poll_channel fetch sink set_order before channel data after
              file tr)) =
  advance fetch channel data.
Proof.
  unfold poll_channel, advance. fold (new_posts_of data (fetch channel)).
  destruct (filter_of data); [reflexivity|].
  destruct (new_posts_of data (fetch channel)); [reflexivity|].
  destruct (max_post_id (fetch channel)); reflexivity.
Qed.

Lemma poll_channel_advance (before : Channels) (channel : str)
    (data : ChannelData) (after : Channels) (tr : trace) :
  let result :=
    poll_channel fetch sink set_order before channel data after
      (before ++ (channel, data) :: after) tr in
  fst (fst result) = advance fetch channel data /\
  snd (fst result) = before ++ (channel, advance fetch channel data) :: after.
Proof.
  unfold poll_channel, advance. fold (new_posts_of data (fetch channel)).
  destruct (filter_of data); [split; reflexivity|].
  destruct (new_posts_of data (fetch channel)); [split; reflexivity|].
  destruct (max_post_id (fetch channel)); split; reflexivity.
Qed.

Lemma advance_settled (channel : str) (data : ChannelData) :
  settled fetch (channel, advance fetch channel data).
Proof.
  unfold settled, advance. cbn [fst snd].
  destruct (filter_of data) as [|c cs] eqn:Ef; [left; exact Ef|].
  destruct (new_posts_of data (fetch channel)) as [|p ps] eqn:En;
    [right; exact En|].
  destruct (max_post_id (fetch channel)) as [m|] eqn:Em.
  - right. apply new_posts_nil. simpl.
    apply (proj2 (max_post_id_spec _ _ Em)).
  - destruct (max_post_id_total (fetch channel)) as (m & Em').
    + intros E. unfold new_posts_of in En. rewrite E in En. discriminate.
    + congruence.
Qed.

Lemma poll_channel_settled (before : Channels) (channel : str)
    (data : ChannelData) (after file : Channels) (tr : trace) :
  settled fetch (channel, data) ->
  exists fetches,
    poll_channel fetch sink set_order before channel data after file tr =
    (data, file, tr ++ fetches) /\
    Forall is_fetch fetches.
Proof.
  intros Hs.
  destruct (poll_channel_cases fetch sink set_order before channel data
              after file tr)
    as [(Ef & E) | [(Ef & En & E) | (Ef & En & _)]]; cbv zeta in *.
  - exists []. rewrite app_nil_r. split; [exact E | constructor].
  - exists [Fetch channel]. split; [exact E | repeat constructor].
  - destruct Hs as [Hs | Hs]; simpl in Hs; contradiction.
Qed.

(** After a run the file holds every entry advanced. *)
Lemma poll_loop_file (todo : Channels) :
  forall before tr,
    fst (poll_loop fetch sink set_order before todo (before ++ todo) tr) =
    before ++ map (advance_entry fetch) todo.
Proof.
  induction todo as [|[channel data] after IH]; intros before tr; simpl.
  - reflexivity.
  - destruct (poll_channel_advance before channel data after tr) as [Ed Ef].
    cbv zeta in *.
    destruct (poll_channel fetch sink set_order before channel data after
                (before ++ (channel, data) :: after) tr)
      as [[data' file'] tr'].
    cbn [fst snd] in *. subst data' file'.
    replace (before ++ (channel, advance fetch channel data) :: after)
      with ((before ++ [(channel, advance fetch channel data)]) ++ after)
      by (rewrite <- app_assoc; reflexivity).
    rewrite IH. rewrite <- app_assoc. reflexivity.
Qed.

(** A run over settled channels leaves the file alone and only fetches. *)
Lemma poll_loop_settled (todo : Channels) :
  Forall (settled fetch) todo ->
  forall before file tr,
  exists fetches,
    poll_loop fetch sink set_order before todo file tr = (file, tr ++ fetches)
    /\ Forall is_fetch fetches.
Proof.
  induction 1 as [|[channel data] after Hs Hafter IH]; intros before file tr;
    simpl.
  - exists []. rewrite app_nil_r. split; [reflexivity | constructor].
  - destruct (poll_channel_settled before channel data after file tr Hs)
      as (f1 & -> & Hf1).
    destruct (IH (before ++ [(channel, data)]) file (tr ++ f1))
      as (f2 & -> & Hf2).
    exists (f1 ++ f2). rewrite app_assoc. split; [reflexivity|].
    apply Forall_app. auto.
Qed.

End TwoRuns.

(** ** Deliveries *)

Section Deliveries.
Variable sink : trace -> str -> bool -> bool.
Variable set_order : list str -> list str.

Lemma forward_shape (channel : str) (data : ChannelData) :
  Forall wf (filter_of data) ->
  forall posts tr,
  exists processed rest outcomes,
    posts = processed ++ rest /\
    length outcomes = length (filter (passes data) processed) /\
    fst (forward sink set_order channel data posts tr) =
    tr ++ concat (map (attempt set_order channel data)
                    (combine (filter (passes data) processed) outcomes)) /\
    ((snd (forward sink set_order channel data posts tr) = Ok tt /\
      rest = [] /\ Forall delivered outcomes) \/
     (snd (forward sink set_order channel data posts tr) = Raise /\
      exists outs processed' post,
        outcomes = outs ++ [(false, false)] /\ Forall delivered outs /\
        processed = processed' ++ [post] /\ passes data post = true)).
Proof.
  intros Hwf. induction posts as [|post posts IH]; intros tr.
  - exists [], [], []. simpl. rewrite app_nil_r.
    repeat split. left. repeat split. constructor.
  - destruct (evaluate_total (text post) (filter_of data)
                (all_must_match_of (filter_of data)) Hwf) as (b & Eb).
    assert (Hp : passes data post = b) by (unfold passes; rewrite Eb;
                                           destruct b; reflexivity).
    cbn [forward]. rewrite Eb. destruct b.
    + destruct (sink tr (primary_message set_order channel data post) true)
        eqn:E1.
      * destruct (IH (tr ++ [Send (primary_message set_order channel data post)
                               true true]))
          as (processed & rest & outcomes & -> & Hlen & Etr & Hout).
        exists (post :: processed), rest, ((true, true) :: outcomes).
        cbn [filter]. rewrite Hp. cbn [combine map concat attempt fst snd length].
        split; [reflexivity|]. split; [congruence|].
        split; [rewrite Etr, <- app_assoc; reflexivity|].
        destruct Hout as [(Eo & Er & Hd) | (Eo & outs & pr & q & -> & Hd & -> & Hq)].
        -- left. repeat split; auto. constructor; [left; reflexivity | exact Hd].
        -- right. split; [exact Eo|].
           exists ((true, true) :: outs), (post :: pr), q.
           repeat split; auto. constructor; [left; reflexivity | exact Hd].
      * destruct (sink (tr ++ [Send (primary_message set_order channel data
                                      post) true false])
                    (fallback_message channel post) false) eqn:E2.
        -- destruct (IH ((tr ++ [Send (primary_message set_order channel data
                                         post) true false]) ++
                         [Send (fallback_message channel post) false true]))
             as (processed & rest & outcomes & -> & Hlen & Etr & Hout).
           exists (post :: processed), rest, ((false, true) :: outcomes).
           cbn [filter]. rewrite Hp.
           cbn [combine map concat attempt fst snd length].
           split; [reflexivity|]. split; [congruence|].
           split; [rewrite Etr, <- !app_assoc; reflexivity|].
           destruct Hout
             as [(Eo & Er & Hd) | (Eo & outs & pr & q & -> & Hd & -> & Hq)].
           ++ left. repeat split; auto.
              constructor; [right; reflexivity | exact Hd].
           ++ right. split; [exact Eo|].
              exists ((false, true) :: outs), (post :: pr), q.
              repeat split; auto.
              constructor; [right; reflexivity | exact Hd].
        -- exists [post], posts, [(false, false)].
           cbn [filter]. rewrite Hp.
           cbn [combine map concat attempt fst snd length app].
           split; [reflexivity|]. split; [reflexivity|].
           split; [rewrite <- app_assoc; reflexivity|].
           right. split; [reflexivity|].
           exists [], [], post. repeat split; auto.
    + destruct (IH tr)
        as (processed & rest & outcomes & -> & Hlen & Etr & Hout).
      exists (post :: processed), rest, outcomes.
      cbn [filter]. rewrite Hp.
      split; [reflexivity|]. split; [exact Hlen|]. split; [exact Etr|].
      destruct Hout
        as [(Eo & Er & Hd) | (Eo & outs & pr & q & -> & Hd & -> & Hq)].
      * left. auto.
      * right. split; [exact Eo|]. exists outs, (post :: pr), q. auto.
Qed.

End Deliveries.

(** ** The claims on the loop *)

(** The scenario of the specification: with the watermark 100 and the
    filter [buy/sell], the batch 103, 99, 101 moves the watermark to 103
    and the posts 101 and 103 are forwarded in this order. *)
Example end_to_end_scenario :
  poll_channels (fun _ => demo_posts) (fun _ _ _ => true) (fun l => l)
    [(py "@c", demo_channel)] =
  ([(py "@c", set_last_post_id demo_channel 103)],
   [Fetch (py "@c");
    Save [(py "@c", set_last_post_id demo_channel 103)];
    Send (py "From @c:" ++ [10%N] ++ py "https://t.me/c/101") true true;
    Send (py "From @c:" ++ [10%N] ++ py "https://t.me/c/103") true true]).
Proof. vm_compute. reflexivity. Qed.

(** C2.  One pass of the loop for a channel, in any state of the run.  The
    watermark never goes down.  When the channel has a filter (so that its
    batch is fetched) and some fetched post is above the watermark, the new
    watermark is the greatest id of the whole batch, the channel file is
    written with it, and the calls made are the fetch, then the save, then
    only calls to the sink.  When no fetched post is above the watermark,
    the entry and the file are unchanged and no call but the fetch is made.
    The entry that the pass gives depends on the channel and its batch
    only, and the file that a whole run leaves holds that entry for each
    channel. *)
Theorem watermark_advances_before_delivery :
  forall fetch sink set_order before channel data after file tr,
    let result :=
      poll_channel fetch sink set_order before channel data after file tr in
    let data' := fst (fst result) in
    let file' := snd (fst result) in
    let tr' := snd result in
    last_post_id data <= last_post_id data' /\
    (filter_of data <> [] ->
     (exists p, In p (fetch channel) /\ last_post_id data < id p) ->
     (exists p, In p (fetch channel) /\ id p = last_post_id data') /\
     (forall p, In p (fetch channel) -> id p <= last_post_id data') /\
     data' = set_last_post_id data (last_post_id data') /\
     file' = before ++ (channel, data') :: after /\
     exists sends,
       tr' = tr ++ [Fetch channel; Save file'] ++ sends /\
       Forall is_send sends) /\
    ((forall p, In p (fetch channel) -> id p <= last_post_id data) ->
     data' = data /\ file' = file /\
     exists fetches, tr' = tr ++ fetches /\ Forall is_fetch fetches) /\
    (data' = advance fetch channel data /\
     fst (poll_channels fetch sink set_order file) =
     map (advance_entry fetch) file).
Proof.
  intros fetch sink set_order before channel data after file tr.
  assert (Hrun :
            fst (fst (poll_channel fetch sink set_order before channel data
                        after file tr)) = advance fetch channel data /\
            fst (poll_channels fetch sink set_order file) =
            map (advance_entry fetch) file).
  { split; [apply poll_channel_data|].
    exact (poll_loop_file fetch sink set_order file [] []). }
  revert Hrun.
  generalize (fst (poll_channels fetch sink set_order file)). intros run Hrun.
  destruct (poll_channel_cases fetch sink set_order before channel data
              after file tr)
    as [(Ef & E) | [(Ef & En & E) | (Ef & En & m & Em & E)]];
    cbv zeta in *; rewrite E in Hrun |- *; cbn [fst snd] in Hrun |- *.
  - split; [lia|]. split; [congruence|]. split; [|exact Hrun]. intros _.
    repeat split. exists []. rewrite app_nil_r. split; [reflexivity|constructor].
  - split; [lia|]. split; [|split; [|exact Hrun]].
    + intros _ (p & Hp & Hlt).
      pose proof (proj1 (new_posts_nil _ _) En p Hp). lia.
    + intros _. repeat split. exists [Fetch channel].
      split; [reflexivity | repeat constructor].
  - destruct (max_post_id_spec _ _ Em) as ((q & Hq & Eq) & Hmax).
    assert (Hnew : exists p, In p (fetch channel) /\ last_post_id data < id p).
    { destruct (new_posts_of data (fetch channel)) as [|p ps] eqn:E'.
      - congruence.
      - exists p. apply (proj1 (new_posts_In data (fetch channel) p)).
        rewrite E'. left. reflexivity. }
    destruct Hnew as (p & Hp & Hlt). pose proof (Hmax p Hp) as Hpm.
    split; [simpl; lia|]. split; [|split; [|exact Hrun]].
    + intros _ _. split; [exists q; auto|]. split; [exact Hmax|].
      split; [reflexivity|]. split; [reflexivity|].
      destruct (forward_sends sink set_order channel (set_last_post_id data m)
                  (sorted_posts (new_posts_of data (fetch channel)))
                  ((tr ++ [Fetch channel]) ++
                   [Save (before ++ (channel, set_last_post_id data m) :: after)]))
        as (sends & -> & Hs).
      exists sends. rewrite <- !app_assoc. split; [reflexivity | exact Hs].
    + intros Hall. specialize (Hall p Hp). lia.
Qed.

Lemma watermark_advances_before_delivery_witness :
  let result :=
    poll_channel (fun _ => demo_posts) (fun _ _ _ => true) (fun l => l)
      [] (py "@c") demo_channel [] [(py "@c", demo_channel)] [] in
  last_post_id (fst (fst result)) = 103 /\
  snd (fst result) = [(py "@c", set_last_post_id demo_channel 103)] /\
  exists sends,
    snd result =
    [] ++ [Fetch (py "@c"); Save (snd (fst result))] ++ sends /\
    Forall is_send sends.
Proof.
  pose proof (watermark_advances_before_delivery
                (fun _ => demo_posts) (fun _ _ _ => true) (fun l => l)
                [] (py "@c") demo_channel [] [(py "@c", demo_channel)] [])
    as (_ & H & _).
  cbv zeta in *.
  destruct H as (_ & _ & _ & Hfile & Hsends).
  - vm_compute. discriminate.
  - exists (mkPost 103 (py "sell now") (py "https://t.me/c/103")).
    split; [left; reflexivity | vm_compute; reflexivity].
  - split; [vm_compute; reflexivity|]. split; [vm_compute; reflexivity|].
    exact Hsends.
Defined.

(** C5.  A second run of the loop, on the file the first run left and with
    the same batches fetched, leaves the file as it is (no watermark
    changes) and makes no call but fetches: nothing is delivered, nothing
    is saved.  The sink and the iteration order of sets may differ between
    the two runs. *)
Theorem second_run_is_idle :
  forall fetch sink1 sink2 order1 order2 file,
    let file1 := fst (poll_channels fetch sink1 order1 file) in
    let second := poll_channels fetch sink2 order2 file1 in
    fst second = file1 /\
    Forall is_fetch (snd second) /\
    forall text html delivered, ~ In (Send text html delivered) (snd second).
Proof.
  intros fetch sink1 sink2 order1 order2 file file1 second.
  assert (E1 : file1 = map (advance_entry fetch) file).
  { unfold file1, poll_channels.
    apply (poll_loop_file fetch sink1 order1 file [] []). }
  assert (Hs : Forall (settled fetch) file1).
  { rewrite E1. apply Forall_forall. intros e He.
    apply in_map_iff in He as ([channel data] & <- & _).
    apply advance_settled. }
  destruct (poll_loop_settled fetch sink2 order2 file1 Hs [] file1 [])
    as (fetches & E & Hf).
  unfold second, poll_channels, load_channels. rewrite E. cbn [fst snd app].
  split; [reflexivity|]. split; [exact Hf|].
  intros text html delivered Hin.
  rewrite Forall_forall in Hf. apply (Hf _ Hin).
Qed.

(** C6 as worded fails.  With a sink that rejects every message, the
    failure of the fallback for post 101 leaves the loop over the posts,
    and post 103, which passes the filter, gets no attempt at all. *)
Lemma fallback_failure_skips_the_rest :
  ~ every_passing_post_is_attempted
      (fun _ => demo_posts) (fun _ _ _ => false) (fun l => l)
      [(py "@c", demo_channel)].
Proof.
  intros H.
  destruct (H (py "@c") demo_channel
              (mkPost 103 (py "sell now") (py "https://t.me/c/103")))
    as (d & Hin).
  - left. reflexivity.
  - vm_compute. left. reflexivity.
  - vm_compute. reflexivity.
  - vm_compute in Hin.
    destruct Hin as [E | [E | [E | [E | []]]]]; discriminate E.
Qed.

(** C6, amended.  For a channel with a parsed filter and unseen posts, the
    posts are handled in ascending order of id.  The calls made after the
    fetch and the save are, for each post that passes the filter, in that
    order: one attempt to deliver the primary message and, only when that
    attempt fails, one attempt to deliver the fallback message.  Either
    every post is handled in this way, each with a delivered message, or
    the fallback of one post fails and the posts after it get no attempt.
    In both cases the body of the loop returns: nothing is raised. *)
Theorem deliveries_in_order_with_one_fallback :
  forall fetch sink set_order before channel data after file tr,
    Forall wf (filter_of data) ->
    filter_of data <> [] ->
    new_posts_of data (fetch channel) <> [] ->
    let posts := sorted_posts (new_posts_of data (fetch channel)) in
    StronglySorted id_le posts /\
    Permutation posts (new_posts_of data (fetch channel)) /\
    exists file' processed rest outcomes,
      posts = processed ++ rest /\
      length outcomes = length (filter (passes data) processed) /\
      snd (poll_channel fetch sink set_order before channel data after file tr)
      = tr ++ [Fetch channel; Save file'] ++
        concat (map (attempt set_order channel data)
                  (combine (filter (passes data) processed) outcomes)) /\
      ((rest = [] /\ Forall delivered outcomes) \/
       (exists outs processed' post,
           outcomes = outs ++ [(false, false)] /\ Forall delivered outs /\
           processed = processed' ++ [post] /\ passes data post = true)).
Proof.
  intros fetch sink set_order before channel data after file tr Hwf Hf Hn posts.
  split; [apply sorted_posts_sorted|]. split; [apply sorted_posts_perm|].
  destruct (poll_channel_cases fetch sink set_order before channel data
              after file tr)
    as [(Ef & _) | [(_ & En & _) | (_ & _ & m & Em & E)]];
    [contradiction | contradiction |].
  cbv zeta in E. rewrite E. cbn [snd].
  destruct (forward_shape sink set_order channel (set_last_post_id data m)
              Hwf posts
              ((tr ++ [Fetch channel]) ++
               [Save (before ++ (channel, set_last_post_id data m) :: after)]))
    as (processed & rest & outcomes & Hp & Hlen & Etr & Hout).
  exists (before ++ (channel, set_last_post_id data m) :: after),
    processed, rest, outcomes.
  split; [exact Hp|]. split; [exact Hlen|]. split.
  - fold posts. rewrite Etr, <- !app_assoc. reflexivity.
  - destruct Hout as [(_ & Er & Hd) | (_ & Hr)]; [left; auto | right; exact Hr].
Qed.

Lemma deliveries_in_order_with_one_fallback_witness :
  let posts := sorted_posts (new_posts_of demo_channel demo_posts) in
  map id posts = [101; 103] /\
  exists file' processed rest outcomes,
    posts = processed ++ rest /\
    length outcomes = length (filter (passes demo_channel) processed) /\
    snd (poll_channel (fun _ => demo_posts) plain_only_sink (fun l => l)
           [] (py "@c") demo_channel [] [(py "@c", demo_channel)] [])
    = [] ++ [Fetch (py "@c"); Save file'] ++
      concat (map (attempt (fun l => l) (py "@c") demo_channel)
                (combine (filter (passes demo_channel) processed) outcomes)) /\
    ((rest = [] /\ Forall delivered outcomes) \/
     (exists outs processed' post,
         outcomes = outs ++ [(false, false)] /\ Forall delivered outs /\
         processed = processed' ++ [post] /\
         passes demo_channel post = true)).
Proof.
  split; [vm_compute; reflexivity|].
  apply (deliveries_in_order_with_one_fallback
           (fun _ => demo_posts) plain_only_sink (fun l => l)
           [] (py "@c") demo_channel [] [(py "@c", demo_channel)] []).
  - apply parse_filter_wf.
  - vm_compute. discriminate.
  - vm_compute. discriminate.
Defined.
